(** * Connectivity probing of a peer: [server/connectivity.py]

    A shallow embedding of [NatHelper] (the table of awaited NAT packets of a
    connection) and of [ConnectivityTest] (the PUBLIC / STUN / PROXY
    classifier), with the properties of the specification stated over it.

    Python objects are modelled as follows.
    - An [asyncio.Future] is a cell of a store, named by its index; the cell
      is pending, holds a result, or is cancelled.  A dict from message text
      to future is a [gmap string nat] into that store, so that the waiter
      and the table alias the same cell.
    - A coroutine runs atomically between two suspension points.  What happens
      while it is suspended is read from a timeline of external events
      (client reports, datagrams, a cancellation of the task), in order.
    - Exceptions are results of an error monad over the world state.  The code
      targets the Python versions in which [concurrent.futures.TimeoutError]
      and [concurrent.futures.CancelledError] are the classes raised by
      [asyncio.wait_for] and by task cancellation. *)

From Stdlib Require Import QArith ZArith Ascii String List Lia Lqa DecimalString DecimalZ.
From stdpp Require Import base gmap strings list fin_maps.

Local Open Scope string_scope.

(** ** Data model *)

(** [server.types.Address]: a (host, port) pair. *)
Definition Address : Type := string * Z.

#[global] Instance Address_eq_dec : EqDecision Address.
Proof. solve_decision. Defined.

(** [ConnectivityState], an enumeration of three levels. *)
Inductive ConnectivityState : Type :=
| PUBLIC
| STUN
| PROXY.

(** The value of the string-valued enum member. *)
Definition ConnectivityState_value (s : ConnectivityState) : string :=
  match s with
  | PUBLIC => "PUBLIC"
  | STUN => "STUN"
  | PROXY => "PROXY"
  end.

(** What the [addr] field of a [Connectivity] holds: [None], the formatted
    text ["host:port"], or the address object a datagram came from. *)
Inductive addr_value : Type :=
| AddrNone
| AddrText (s : string)
| AddrWire (a : Address).

(** [Connectivity = namedtuple('Connectivity', ['addr', 'state'])]. *)
Record Connectivity : Type := mkConnectivity {
  addr : addr_value;
  state : ConnectivityState
}.

(** [str(n)] for an integer. *)
Definition str_of_int (n : Z) : string := NilZero.string_of_int (Z.to_int n).

(** The text [host:port] that formatting an address with the pattern
    [{}:{}] gives. *)
Definition format_address (a : Address) : string :=
  fst a ++ ":" ++ str_of_int (snd a).

(** ** Futures and the table of awaited packets *)

Inductive future (P : Type) : Type :=
| FPending
| FDone (result : P)
| FCancelled.
Arguments FPending {P}.
Arguments FDone {P} result.
Arguments FCancelled {P}.

(** [fut.done()]: true when a result is set and also when cancelled. *)
Definition future_done {P} (f : future P) : bool :=
  match f with
  | FPending => false
  | FDone _ | FCancelled => true
  end.

(** A message-keyed dict of futures together with the cells it points into.
    [nat_packets] is the dict; [cells] is the part of the heap holding the
    futures ever created for it. *)
Record Awaited (P : Type) : Type := mkAwaited {
  nat_packets : gmap string nat;
  cells : list (future P)
}.
Arguments mkAwaited {P} nat_packets cells.
Arguments nat_packets {P} a.
Arguments cells {P} a.

(** [self.nat_packets = {}] of [NatHelper.__init__]. *)
Definition Awaited_init {P} : Awaited P := mkAwaited ∅ [].

(** [fut = asyncio.Future(); table[message] = fut]: allocates a fresh cell
    and stores it under [message], overwriting any entry of that key. *)
Definition register {P} (message : string) (a : Awaited P) : nat * Awaited P :=
  let fut := length (cells a) in
  (fut, mkAwaited (<[message := fut]> (nat_packets a)) (cells a ++ [FPending])).

(** The resolving half shared by both tables:
    [if key in table and not table[key].done(): set_result(v); del table[key]]. *)
Definition resolve {P} (message : string) (v : P) (a : Awaited P) : Awaited P :=
  match nat_packets a !! message with
  | Some fut =>
      match cells a !! fut with
      | Some f =>
          if future_done f then a
          else mkAwaited (delete message (nat_packets a)) (<[fut := FDone v]> (cells a))
      | None => a
      end
  | None => a
  end.

(** [fut.cancel()]: a pending future becomes cancelled, a done one is left. *)
Definition cancel_future {P} (fut : nat) (a : Awaited P) : Awaited P :=
  match cells a !! fut with
  | Some FPending => mkAwaited (nat_packets a) (<[fut := FCancelled]> (cells a))
  | _ => a
  end.

(** The result a future holds, if any. *)
Definition future_result {P} (fut : nat) (a : Awaited P) : option P :=
  match cells a !! fut with
  | Some (FDone v) => Some v
  | _ => None
  end.

Module NatHelper.

(** The futures of a [NatHelper] resolve with [(address, message)]. *)
Abbreviation t := (Awaited (Address * string)).

(** What [wait_for_natpacket] returns: the pair, [None] (the function falls
    off its end) or [False]. *)
Inductive returned : Type :=
| RetPair (address : Address) (msg : string)
| RetNone
| RetFalse.

(** Lines 49-51 of [wait_for_natpacket], up to the [await]. *)
Definition wait_for_natpacket_begin (message : string) (h : t) : nat * t :=
  register message h.

(** [addr == sender or sender is None]. *)
Definition sender_accepts (address : Address) (sender : option Address) : bool :=
  match sender with
  | Some s => bool_decide (address = s)
  | None => true
  end.

(** Lines 52-58 of [wait_for_natpacket], from the point where [await fut]
    hands back [(addr, msg)]; [done] is [fut.done()] at that point. *)
Definition wait_for_natpacket_resume (message : string) (sender : option Address)
    (done : bool) (got : Address * string) : returned :=
  let '(address, msg) := got in
  if done then
    if sender_accepts address sender && String.eqb msg message
    then RetPair address msg
    else RetNone
  else RetFalse.

(** The whole of lines 52-58 on the store: [None] while the future is
    pending (the coroutine is not resumed), [inr tt] when the future was
    cancelled ([await] raises [CancelledError]). *)
Definition wait_for_natpacket_end (message : string) (sender : option Address)
    (fut : nat) (h : t) : option (returned + unit) :=
  match cells h !! fut with
  | Some (FDone got) =>
      Some (inl (wait_for_natpacket_resume message sender (future_done (FDone got)) got))
  | Some FCancelled => Some (inr tt)
  | Some FPending | None => None
  end.

(** [process_nat_packet]: the [isinstance] test holds of every entry, the
    table only ever stores futures. *)
Definition process_nat_packet (address : Address) (message : string) (h : t) : t :=
  resolve message (address, message) h.

(** [send_nat_packet]: the command handed to [self.send]. *)
Definition send_nat_packet (address : Address) (message : string)
  : string * string * list string :=
  ("SendNatPacket", "connectivity", [format_address address; message]).

(** A call on the helper, to speak of sequences of calls. *)
Inductive call : Type :=
| CallWait (message : string)
| CallProcess (address : Address) (message : string).

Definition apply_call (c : call) (h : t) : t :=
  match c with
  | CallWait message => snd (wait_for_natpacket_begin message h)
  | CallProcess address message => process_nat_packet address message h
  end.

Definition apply_calls (cs : list call) (h : t) : t :=
  fold_left (fun h c => apply_call c h) cs h.

End NatHelper.

(** Every entry of the table points at an allocated cell. *)
Definition well_formed {P} (a : Awaited P) : Prop :=
  ∀ k fut, nat_packets a !! k = Some fut → fut < length (cells a).

(** No key of the table points at [fut]. *)
Definition unreferenced {P} (fut : nat) (a : Awaited P) : Prop :=
  ∀ k, nat_packets a !! k ≠ Some fut.

(** No future is stored under two keys. *)
Definition stored_once {P} (a : Awaited P) : Prop :=
  ∀ k1 k2 fut,
    nat_packets a !! k1 = Some fut → nat_packets a !! k2 = Some fut → k1 = k2.

(** Every future the table holds is still pending. *)
Definition all_pending {P} (a : Awaited P) : Prop :=
  ∀ k fut, nat_packets a !! k = Some fut → cells a !! fut = Some FPending.

(** ** The listener of NAT datagrams *)

Module NatPacketServer.

(** Its futures resolve with [(received, addr)], the order in which
    [test_stun] unpacks them. *)
Abbreviation t := (Awaited (string * Address)).

(** Modelled from the spec: the class [NatPacketServer] of
    [server/natpacketserver.py] is not among the sources.  A fresh listener
    awaits nothing. *)
Definition init : t := Awaited_init.

(** Modelled from the spec: [await_packet] of the missing class
    [NatPacketServer], as the spec's [registerExpectation]: a new
    single-resolution wait for the text, replacing one of the same text. *)
Definition await_packet (message : string) (s : t) : nat * t :=
  register message s.

(** Modelled from the spec: the receive path of the missing class
    [NatPacketServer], as the spec's [onPacketReceived]: a pending wait for
    exactly this text is resolved with the text and the source address and
    removed; anything else is ignored. *)
Definition datagram_received (source : Address) (message : string) (s : t) : t :=
  resolve message (message, source) s.

End NatPacketServer.

(** ** The world a classification run executes in *)

(** The exceptions the code names, the [AttributeError] of calling a method on
    a [_natserver] that is still [None], and a failure of the listener to
    start. *)
Inductive exn : Type :=
| TimeoutError
| CancelledError
| AttributeError
| ListenError.

Inductive outcome (A : Type) : Type :=
| Ok (a : A)
| Raise (e : exn).
Arguments Ok {A} a.
Arguments Raise {A} e.

(** What can happen while the run is suspended. *)
Inductive event : Type :=
| ClientReport (source : Address) (message : string)
    (* the connection is told of a packet: process_nat_packet is called *)
| Datagram (source : Address) (message : string)
    (* the listener receives a datagram *)
| Cancel.
    (* the task running the classification is cancelled *)

(** What the run does to the outside, in order. *)
Inductive effect : Type :=
| DidListen
| DidSend (target : Address) (message : string)
| DidGpgnet (command : string) (args : list string)
| DidSleep (delay : Q)
| DidWaitFor (timeout : Q)
| GotCancelled.

(** The two settings of the module [config] the code reads; the module is
    not among the sources, their values are taken as given. *)
Record Config : Type := mkConfig {
  LOBBY_IP : string;
  LOBBY_UDP_PORT : Z
}.

Record World : Type := mkWorld {
  now : Q;                                  (* the clock of the loop *)
  inbox : list (Q * event);                 (* what is still to happen, with its time *)
  connection : NatHelper.t;                 (* the NatHelper the test was given *)
  natserver : option NatPacketServer.t;     (* the module global _natserver *)
  listen_raises : option exn;               (* what awaiting listen() raises, if anything *)
  config : Config;
  effects : list effect
}.

Definition set_now (t : Q) (w : World) : World :=
  mkWorld t (inbox w) (connection w) (natserver w) (listen_raises w) (config w) (effects w).
Definition set_inbox (evs : list (Q * event)) (w : World) : World :=
  mkWorld (now w) evs (connection w) (natserver w) (listen_raises w) (config w) (effects w).
Definition set_connection (h : NatHelper.t) (w : World) : World :=
  mkWorld (now w) (inbox w) h (natserver w) (listen_raises w) (config w) (effects w).
Definition set_natserver (s : option NatPacketServer.t) (w : World) : World :=
  mkWorld (now w) (inbox w) (connection w) s (listen_raises w) (config w) (effects w).
Definition did (e : effect) (w : World) : World :=
  mkWorld (now w) (inbox w) (connection w) (natserver w) (listen_raises w) (config w)
    (effects w ++ [e]).

(** *** State and exceptions *)

Definition M (A : Type) : Type := World → outcome A * World.

Definition ret {A} (a : A) : M A := fun w => (Ok a, w).

Definition raise {A} (e : exn) : M A := fun w => (Raise e, w).

Definition bind {A B} (m : M A) (k : A → M B) : M B := fun w =>
  match m w with
  | (Ok a, w') => k a w'
  | (Raise e, w') => (Raise e, w')
  end.

Notation "x <- m ;; k" := (bind m (fun x => k))
  (at level 100, m at next level, right associativity).
Notation "m ;;; k" := (bind m (fun _ => k))
  (at level 100, right associativity).

(** [try: body except (classes): handler]. *)
Definition try_except {A} (body : M A) (classes : exn → bool) (handler : M A) : M A :=
  fun w =>
    match body w with
    | (Ok a, w') => (Ok a, w')
    | (Raise e, w') => if classes e then handler w' else (Raise e, w')
    end.

(** [(TimeoutError, CancelledError)], in either order. *)
Definition timeout_or_cancelled (e : exn) : bool :=
  match e with
  | TimeoutError | CancelledError => true
  | AttributeError | ListenError => false
  end.

(** [for i in range(0, n): body]. *)
Fixpoint for_range (n : nat) (body : M unit) : M unit :=
  match n with
  | O => ret tt
  | S n' => body ;;; for_range n' body
  end.

(** *** Suspension *)

(** An event reaches the object it is for. *)
Definition deliver (e : event) (w : World) : World :=
  match e with
  | ClientReport source message =>
      set_connection (NatHelper.process_nat_packet source message (connection w)) w
  | Datagram source message =>
      set_natserver (NatPacketServer.datagram_received source message <$> natserver w) w
  | Cancel => w
  end.

(** How a suspended coroutine is woken. *)
Inductive wake (R : Type) : Type :=
| Completed (r : R)
| Expired
| Interrupted.
Arguments Completed {R} r.
Arguments Expired {R}.
Arguments Interrupted {R}.

(** The coroutine is suspended until [poll] has something for it, until the
    clock reaches [deadline], or until the task is cancelled, whichever comes
    first; the events before that are delivered in order.  An event is
    before the deadline when its time is strictly less. *)
Fixpoint suspend {R} (deadline : Q) (poll : World → option R)
    (evs : list (Q * event)) (w : World) : wake R * World :=
  match poll w with
  | Some r => (Completed r, set_inbox evs w)
  | None =>
      match evs with
      | [] => (Expired, set_inbox [] (set_now deadline w))
      | (t, e) :: rest =>
          if Qlt_le_dec t deadline then
            match e with
            | Cancel => (Interrupted, did GotCancelled (set_inbox rest (set_now t w)))
            | _ => suspend deadline poll rest (deliver e (set_now t w))
            end
          else (Expired, set_inbox evs (set_now deadline w))
      end
  end.

(** [await asyncio.sleep(delay)]. *)
Definition sleep (delay : Q) : M unit := fun w =>
  let w := did (DidSleep delay) w in
  match suspend (now w + delay) (fun _ => @None unit) (inbox w) w with
  | (Interrupted, w') => (Raise CancelledError, w')
  | (_, w') => (Ok tt, w')
  end.

(** [await asyncio.wait_for(coro, timeout)] for the coroutine
    [connection.wait_for_natpacket(message, sender)].  The coroutine object
    starts running here, not where it was created: this is where the future
    is registered.  On a timeout or a cancellation the task is cancelled,
    which cancels the future it awaits; the table is not touched. *)
Definition wait_for_natpacket_task (message : string) (sender : option Address)
    (timeout : Q) : M NatHelper.returned := fun w =>
  let w := did (DidWaitFor timeout) w in
  let '(fut, h) := NatHelper.wait_for_natpacket_begin message (connection w) in
  let w := set_connection h w in
  match suspend (now w + timeout)
          (fun w => NatHelper.wait_for_natpacket_end message sender fut (connection w))
          (inbox w) w with
  | (Completed (inl r), w') => (Ok r, w')
  | (Completed (inr _), w') => (Raise CancelledError, w')
  | (Expired, w') =>
      (Raise TimeoutError, set_connection (cancel_future fut (connection w')) w')
  | (Interrupted, w') =>
      (Raise CancelledError, set_connection (cancel_future fut (connection w')) w')
  end.

(** [await asyncio.wait_for(fut, timeout)] for a future of the listener. *)
Definition wait_for_packet (fut : nat) (timeout : Q) : M (string * Address) := fun w =>
  let w := did (DidWaitFor timeout) w in
  match suspend (now w + timeout)
          (fun w => s ← natserver w; future_result fut s)
          (inbox w) w with
  | (Completed r, w') => (Ok r, w')
  | (Expired, w') =>
      (Raise TimeoutError, set_natserver (cancel_future fut <$> natserver w') w')
  | (Interrupted, w') =>
      (Raise CancelledError, set_natserver (cancel_future fut <$> natserver w') w')
  end.

(** ** The module function [send_natpacket] *)

(** [await _natserver.listen()]: the listener is not among the sources, what
    awaiting it raises is read from the world. *)
Definition listen : M unit := fun w =>
  let w := did DidListen w in
  match listen_raises w with
  | Some e => (Raise e, w)
  | None => (Ok tt, w)
  end.

(** [send_natpacket]: creates and starts the listener on first use, then
    hands the datagram to [send_natpacket_to], a method of the listener that
    is not among the sources; the datagram is recorded. *)
Definition send_natpacket (address : Address) (msg : string) : M unit := fun w =>
  (match natserver w with
   | None =>
       (fun w => (Ok tt, set_natserver (Some NatPacketServer.init) w)) ;;;
       listen
   | Some _ => ret tt
   end ;;;
   (fun w => (Ok tt, did (DidSend address msg) w))) w.

(** ** ConnectivityTest *)

Record ConnectivityTest : Type := mkConnectivityTest {
  remote_addr : Address;
  identifier : string
}.

(** [__init__]: [remote_addr = (host, port)]. *)
Definition ConnectivityTest_init (host : string) (port : Z) (identifier : string)
  : ConnectivityTest :=
  mkConnectivityTest (host, port) identifier.

(** The message of [test_public]. *)
Definition public_message (identifier : string) : string :=
  "Are you public? " ++ identifier.

(** The message of [test_stun]. *)
Definition stun_message (identifier : string) : string :=
  "Hello " ++ identifier.

Definition test_public (self : ConnectivityTest) : M bool :=
  let message := public_message (identifier self) in
  let received_packet := wait_for_natpacket_task message None in
  for_range 3 (send_natpacket (remote_addr self) message) ;;;
  try_except
    (result <- received_packet 1%Q ;;
     ret true)
    timeout_or_cancelled
    (ret false).

(** [_natserver.await_packet(message)]. *)
Definition natserver_await_packet (message : string) : M nat := fun w =>
  match natserver w with
  | None => (Raise AttributeError, w)
  | Some s =>
      let '(fut, s') := NatPacketServer.await_packet message s in
      (Ok fut, set_natserver (Some s') w)
  end.

(** [self.connection.send_gpgnet_message(command, args)]: the method belongs
    to the connection class, which is not among the sources; the request is
    recorded and nothing else happens. *)
Definition send_gpgnet_message (command : string) (args : list string) : M unit :=
  fun w => (Ok tt, did (DidGpgnet command args) w).

(** The text of the lobby's address, host and port joined by a colon. *)
Definition lobby_address (c : Config) : string :=
  LOBBY_IP c ++ ":" ++ str_of_int (LOBBY_UDP_PORT c).

(** One pass of the loop body of [test_stun]: [Some addr] when the body
    returns [addr], [None] when the loop goes on. *)
Definition test_stun_round (self : ConnectivityTest) (message : string)
  : M (option Address) :=
  fut <- natserver_await_packet message ;;
  (fun w => send_gpgnet_message "SendNatPacket" [lobby_address (config w); message] w) ;;;
  sleep (1 # 10) ;;;
  try_except
    (got <- wait_for_packet fut (5 # 10) ;;
     let '(received, address) := got in
     if String.eqb received message then ret (Some address) else ret None)
    timeout_or_cancelled
    (ret None).

(** The loop of [test_stun] with [rounds] passes left; a function that falls
    off its end returns [None]. *)
Fixpoint test_stun_loop (self : ConnectivityTest) (message : string) (rounds : nat)
  : M (option Address) :=
  match rounds with
  | O => ret None
  | S rounds' =>
      returned <- test_stun_round self message ;;
      match returned with
      | Some address => ret (Some address)
      | None => test_stun_loop self message rounds'
      end
  end.

Definition test_stun (self : ConnectivityTest) : M (option Address) :=
  let message := stun_message (identifier self) in
  test_stun_loop self message 3.

(** [if addr:] on what [test_stun] returned: [None] is false, a two-element
    tuple is true. *)
Definition truthy (a : option Address) : bool :=
  match a with
  | Some _ => true
  | None => false
  end.

Definition addr_of (a : option Address) : addr_value :=
  match a with
  | Some address => AddrWire address
  | None => AddrNone
  end.

Definition determine_connectivity (self : ConnectivityTest) : M Connectivity :=
  returned <-
    try_except
      (public <- test_public self ;;
       if public then
         ret (Some (mkConnectivity (AddrText (format_address (remote_addr self))) PUBLIC))
       else
         address <- test_stun self ;;
         if truthy address then ret (Some (mkConnectivity (addr_of address) STUN))
         else ret (Some (mkConnectivity AddrNone PROXY)))
      timeout_or_cancelled
      (ret None) ;;
  match returned with
  | Some c => ret c
  | None => ret (mkConnectivity AddrNone PROXY)
  end.

(** A world in which nothing has happened yet: the clock at [start], an
    untouched connection, no listener. *)
Definition fresh_world (start : Q) (evs : list (Q * event)) (fails : option exn)
    (c : Config) : World :=
  mkWorld start evs Awaited_init None fails c [].

(** ** What a run leaves behind *)

(** The listener is running already, or starts when asked to. *)
Definition listener_ok (w : World) : Prop :=
  is_Some (natserver w) ∨ listen_raises w = None.

(** Suspending and resuming changes neither the settings nor the presence of
    the listener. *)
Definition same_setting (w w' : World) : Prop :=
  config w' = config w ∧ listen_raises w' = listen_raises w ∧
  (is_Some (natserver w) → is_Some (natserver w')).

(** The request a STUN round sends over the connection. *)
Definition gpgnet_request (c : Config) (message : string) : effect :=
  DidGpgnet "SendNatPacket" [lobby_address c; message].

(** The effects of the STUN loop with [n] rounds left, and how it ends: by
    running out of rounds, by a round that sees its packet, by a cancellation
    during the settle delay; a round that times out or is cancelled while it
    waits is followed by the remaining rounds. *)
Inductive stun_run (c : Config) (message : string)
  : nat → list effect → outcome (option Address) → Prop :=
| stun_run_out :
    stun_run c message 0 [] (Ok None)
| stun_run_seen n source :
    stun_run c message (S n)
      [gpgnet_request c message; DidSleep (1 # 10); DidWaitFor (5 # 10)]
      (Ok (Some source))
| stun_run_abort n :
    stun_run c message (S n)
      [gpgnet_request c message; DidSleep (1 # 10); GotCancelled]
      (Raise CancelledError)
| stun_run_unseen n tr r :
    stun_run c message n tr r →
    stun_run c message (S n)
      ([gpgnet_request c message; DidSleep (1 # 10); DidWaitFor (5 # 10)] ++ tr) r
| stun_run_cancelled n tr r :
    stun_run c message n tr r →
    stun_run c message (S n)
      ([gpgnet_request c message; DidSleep (1 # 10); DidWaitFor (5 # 10);
        GotCancelled] ++ tr) r.

(** The effects of the PUBLIC phase when the listener is available: the
    start of the listener if it was not running, three sends, one wait of one
    time unit, and the mark of a cancellation if the wait was cancelled. *)
Definition public_run (self : ConnectivityTest) (started cancelled : bool)
  : list effect :=
  (if started then [] else [DidListen]) ++
  replicate 3 (DidSend (remote_addr self) (public_message (identifier self))) ++
  [DidWaitFor 1] ++
  (if cancelled then [GotCancelled] else []).

Definition is_send (e : effect) : bool :=
  match e with DidSend _ _ => true | _ => false end.

Definition is_request (e : effect) : bool :=
  match e with DidGpgnet _ _ => true | _ => false end.

Definition is_wait (e : effect) : bool :=
  match e with DidWaitFor _ => true | _ => false end.

Definition is_sleep (e : effect) : bool :=
  match e with DidSleep _ => true | _ => false end.

(** How many effects of a kind a record shows. *)
Definition count_effects (kind : effect → bool) (tr : list effect) : nat :=
  length (List.filter kind tr).

(** ** What the tables go through while a run is suspended *)

(** The part of [deliver] that concerns the connection, and the listener. *)
Definition deliver_connection (e : event) (h : NatHelper.t) : NatHelper.t :=
  match e with
  | ClientReport source message => NatHelper.process_nat_packet source message h
  | _ => h
  end.

Definition deliver_natserver (e : event) (s : option NatPacketServer.t)
  : option NatPacketServer.t :=
  match e with
  | Datagram source message => NatPacketServer.datagram_received source message <$> s
  | _ => s
  end.

(** [fut] is the pending future stored under [message], and under no other
    key, in a well-formed table. *)
Definition awaiting {P} (message : string) (fut : nat) (a : Awaited P) : Prop :=
  nat_packets a !! message = Some fut ∧
  cells a !! fut = Some FPending ∧
  (∀ k, k ≠ message → nat_packets a !! k ≠ Some fut) ∧
  well_formed a.

(** [fut] is stored under [message] and pending, or has its result. *)
Definition pending_or_done {P} (message : string) (fut : nat) (a : Awaited P) : Prop :=
  (nat_packets a !! message = Some fut ∧ cells a !! fut = Some FPending) ∨
  (∃ v, cells a !! fut = Some (FDone v)).

(** The tables of a world are well formed. *)
Definition sane (w : World) : Prop :=
  well_formed (connection w) ∧ ∀ s, natserver w = Some s → well_formed s.

(** Not a report of a packet with the text [message]. *)
Definition not_report (message : string) (e : event) : Prop :=
  ∀ source, e ≠ ClientReport source message.

(** Not a datagram with the text [message]. *)
Definition not_datagram (message : string) (e : event) : Prop :=
  ∀ source, e ≠ Datagram source message.

(** Whether the listener exists when the run begins. *)
Definition listener_started (w : World) : bool :=
  match natserver w with
  | Some _ => true
  | None => false
  end.

(** What [determine_connectivity] makes of the way [test_stun] ends. *)
Definition verdict (r : outcome (option Address)) : Connectivity :=
  match r with
  | Ok (Some source) => mkConnectivity (AddrWire source) STUN
  | _ => mkConnectivity AddrNone PROXY
  end.

(** The listener exists and [fut] is its pending future for [message]. *)
Definition listener_awaits (message : string) (fut : nat)
    (s : option NatPacketServer.t) : Prop :=
  ∃ s', s = Some s' ∧ awaiting message fut s'.

(** The listener exists and [fut] holds the datagram from [source]. *)
Definition listener_has (message : string) (fut : nat) (source : Address)
    (s : option NatPacketServer.t) : Prop :=
  ∃ s', s = Some s' ∧ cells s' !! fut = Some (FDone (message, source)) ∧
        well_formed s'.

(** The listener exists and its table is well formed. *)
Definition listener_sane (s : option NatPacketServer.t) : Prop :=
  ∃ s', s = Some s' ∧ well_formed s'.

(** An event that is neither the PUBLIC echo nor the STUN packet of the test. *)
Definition unrelated (self : ConnectivityTest) (e : event) : Prop :=
  not_report (public_message (identifier self)) e ∧
  not_datagram (stun_message (identifier self)) e.

(** An event that is no later than [t], is not a datagram of the text
    [message] and does not cancel the run. *)
Definition quiet (message : string) (t : Q) (te : Q * event) : Prop :=
  (fst te <= t)%Q ∧ not_datagram message (snd te) ∧ snd te ≠ Cancel.

(** ** The scenario of the specification *)

Definition example_config : Config := mkConfig "192.0.2.1" 7237.

(** identifier "abc123", peer (10.0.0.5, 6112). *)
Definition example_test : ConnectivityTest :=
  ConnectivityTest_init "10.0.0.5" 6112 "abc123".

Definition example_peer : Address := ("10.0.0.5", 6112%Z).

Definition example_source : Address := ("203.0.113.9", 51000%Z).

(** A run that starts at time 0 on a new connection, with a listener that
    starts, and the given events to come. *)
Definition example_world (evs : list (Q * event)) : World :=
  fresh_world 0 evs None example_config.

(** The run is cancelled at 0.5, while it waits for the PUBLIC echo, and a
    datagram with the hello text arrives at 1.2, during the first round of
    the STUN loop. *)
Definition cancelled_then_seen : World :=
  example_world [((5 # 10)%Q, Cancel);
                 ((12 # 10)%Q, Datagram example_source "Hello abc123")].

(** ** Further notions, for the properties beyond the scenario *)

(** Every character of [s] passes [ok]. *)
Fixpoint only (ok : Ascii.ascii → bool) (s : string) : bool :=
  match s with
  | EmptyString => true
  | String c s' => ok c && only ok s'
  end.

(** A decimal digit or the minus sign. *)
Definition digit_or_minus (c : Ascii.ascii) : bool :=
  match c with
  | "0" | "1" | "2" | "3" | "4" | "5" | "6" | "7" | "8" | "9" | "-" => true
  | _ => false
  end%char.

(** The text a call on the helper is about. *)
Definition call_text (c : NatHelper.call) : string :=
  match c with
  | NatHelper.CallWait message => message
  | NatHelper.CallProcess _ message => message
  end.

(** How many of the calls are registrations. *)
Definition count_waits (cs : list NatHelper.call) : nat :=
  length (List.filter (λ c, match c with NatHelper.CallWait _ => true | _ => false end) cs).

(** [fut] was registered for [message]: it is pending and under no other key,
    or it holds a packet of that text. *)
Definition owned {P} (message : string) (fut : nat) (text : P → string)
    (a : Awaited P) : Prop :=
  (cells a !! fut = Some FPending ∧
   ∀ k, nat_packets a !! k = Some fut → k = message) ∨
  (∃ v, cells a !! fut = Some (FDone v) ∧ text v = message).

(** No key of the table points at a future whose result is set, in a table
    that is well formed and stores no future twice. *)
Definition consistent {P} (a : Awaited P) : Prop :=
  well_formed a ∧ stored_once a ∧
  ∀ k fut v, nat_packets a !! k = Some fut → cells a !! fut ≠ Some (FDone v).

(** [m] keeps [P]: from a world with [P] it ends, normally or not, in a
    world with [P]. *)
Definition keeps {A} (P : World → Prop) (m : M A) : Prop :=
  ∀ w, P w → P (snd (m w)).

(** The effects a computation adds to those of the world it starts in. *)
Definition added {A} (m : M A) (w : World) : list effect :=
  drop (length (effects w)) (effects (snd (m w))).

(** * Facts about futures and tables of awaited packets *)

Local Open Scope list_scope.

Section AwaitedFacts.
Context {P : Type}.
Implicit Types (a : Awaited P) (m k : string) (fut : nat) (v : P).

Lemma register_fut m a : fst (register m a) = length (cells a).
Proof. reflexivity. Qed.

Lemma register_lookup m a :
  nat_packets (snd (register m a)) !! m = Some (length (cells a)).
Proof. simpl. apply lookup_insert_eq. Qed.

Lemma register_lookup_ne m k a :
  m ≠ k → nat_packets (snd (register m a)) !! k = nat_packets a !! k.
Proof. intros Hne. simpl. by apply lookup_insert_ne. Qed.

Lemma register_cell_new m a :
  cells (snd (register m a)) !! length (cells a) = Some FPending.
Proof. simpl. by rewrite lookup_app_r, Nat.sub_diag. Qed.

Lemma register_cell_old m a fut :
  fut < length (cells a) → cells (snd (register m a)) !! fut = cells a !! fut.
Proof. intros Hlt. simpl. by apply lookup_app_l. Qed.

Lemma register_well_formed m a :
  well_formed a → well_formed (snd (register m a)).
Proof.
  intros Hwf k fut. simpl. rewrite length_app. simpl.
  destruct (decide (m = k)) as [->|Hne].
  - rewrite lookup_insert_eq. intros [= <-]. lia.
  - rewrite lookup_insert_ne by done. intros Hk. apply Hwf in Hk. lia.
Qed.

(** The three ways [resolve] can go. *)
Lemma resolve_cases m v a :
  (resolve m v a = a ∧
     (nat_packets a !! m = None ∨
      ∃ fut, nat_packets a !! m = Some fut ∧ cells a !! fut ≠ Some FPending)) ∨
  (∃ fut, nat_packets a !! m = Some fut ∧ cells a !! fut = Some FPending ∧
     resolve m v a =
       mkAwaited (delete m (nat_packets a)) (<[fut := FDone v]> (cells a))).
Proof.
  unfold resolve. destruct (nat_packets a !! m) as [fut|] eqn:Hm; [|left; auto].
  destruct (cells a !! fut) as [[| |]|] eqn:Hc; simpl.
  - right. exists fut. auto.
  - left. split; [done|]. right. exists fut. split; [done|]. by rewrite Hc.
  - left. split; [done|]. right. exists fut. split; [done|]. by rewrite Hc.
  - left. split; [done|]. right. exists fut. split; [done|]. by rewrite Hc.
Qed.

Lemma resolve_hit m v a fut :
  nat_packets a !! m = Some fut → cells a !! fut = Some FPending →
  resolve m v a = mkAwaited (delete m (nat_packets a)) (<[fut := FDone v]> (cells a)).
Proof. intros Hm Hc. unfold resolve. by rewrite Hm, Hc. Qed.

Lemma resolve_absent m v a : nat_packets a !! m = None → resolve m v a = a.
Proof. intros Hm. unfold resolve. by rewrite Hm. Qed.

Lemma resolve_twice m v v' a : resolve m v' (resolve m v a) = resolve m v a.
Proof.
  destruct (resolve_cases m v a) as [[Heq Hwhy]|(fut & Hm & Hc & Heq)].
  - rewrite Heq. destruct (resolve_cases m v' a) as [[Heq' _]|(fut & Hm & Hc & _)]; [done|].
    destruct Hwhy as [Hnone|(fut' & Hm' & Hc')]; congruence.
  - rewrite Heq. apply resolve_absent. simpl. apply lookup_delete_eq.
Qed.

Lemma resolve_length m v a : length (cells (resolve m v a)) = length (cells a).
Proof.
  destruct (resolve_cases m v a) as [[-> _]|(fut & _ & _ & ->)]; [done|].
  simpl. apply length_insert.
Qed.

Lemma resolve_lookup_Some m v a k fut :
  nat_packets (resolve m v a) !! k = Some fut → nat_packets a !! k = Some fut.
Proof.
  destruct (resolve_cases m v a) as [[-> _]|(fut' & _ & _ & ->)]; [done|].
  simpl. intros Hk. apply lookup_delete_Some in Hk. tauto.
Qed.

Lemma resolve_well_formed m v a : well_formed a → well_formed (resolve m v a).
Proof.
  intros Hwf k fut Hk. rewrite resolve_length.
  eapply Hwf, resolve_lookup_Some, Hk.
Qed.

(** A cell that is done or cancelled is never written again. *)
Lemma resolve_settled m v a fut c :
  cells a !! fut = Some c → future_done c = true →
  cells (resolve m v a) !! fut = Some c.
Proof.
  intros Hc Hdone.
  destruct (resolve_cases m v a) as [[-> _]|(fut' & _ & Hc' & ->)]; [done|].
  simpl. rewrite list_lookup_insert_ne; [done|].
  intros ->. rewrite Hc in Hc'. injection Hc' as ->. discriminate.
Qed.

(** A cell that no key of the table points at is out of reach. *)
Lemma resolve_unreferenced_cell m v a fut :
  unreferenced fut a → cells (resolve m v a) !! fut = cells a !! fut.
Proof.
  intros Hun.
  destruct (resolve_cases m v a) as [[-> _]|(fut' & Hm & _ & ->)]; [done|].
  simpl. apply list_lookup_insert_ne. intros ->. by apply (Hun m).
Qed.

Lemma resolve_unreferenced m v a fut :
  unreferenced fut a → unreferenced fut (resolve m v a).
Proof. intros Hun k Hk. apply (Hun k). eapply resolve_lookup_Some, Hk. Qed.

Lemma register_unreferenced m a fut :
  fut < length (cells a) → unreferenced fut a → unreferenced fut (snd (register m a)).
Proof.
  intros Hlt Hun k. simpl. destruct (decide (m = k)) as [->|Hne].
  - rewrite lookup_insert_eq. intros [= Heq]. lia.
  - rewrite lookup_insert_ne by done. apply Hun.
Qed.

Lemma cancel_future_table fut a : nat_packets (cancel_future fut a) = nat_packets a.
Proof. unfold cancel_future. by destruct (cells a !! fut) as [[| |]|]. Qed.

Lemma cancel_future_length fut a :
  length (cells (cancel_future fut a)) = length (cells a).
Proof.
  unfold cancel_future. destruct (cells a !! fut) as [[| |]|]; try done.
  simpl. apply length_insert.
Qed.

Lemma cancel_future_well_formed fut a :
  well_formed a → well_formed (cancel_future fut a).
Proof.
  intros Hwf k g. rewrite cancel_future_table, cancel_future_length. apply Hwf.
Qed.

Lemma Awaited_init_well_formed : well_formed (@Awaited_init P).
Proof. intros k fut. simpl. by rewrite lookup_empty. Qed.

End AwaitedFacts.

(** * NatHelper *)

Section NatHelperFacts.
Import NatHelper.
Implicit Types (h : NatHelper.t) (message : string) (fut : nat).

Lemma all_pending_well_formed {P} (a : Awaited P) : all_pending a → well_formed a.
Proof. intros Hall k fut Hk. eapply lookup_lt_Some, Hall, Hk. Qed.

Lemma register_all_pending {P} m (a : Awaited P) :
  all_pending a → all_pending (snd (register m a)).
Proof.
  intros Hall k fut. destruct (decide (m = k)) as [->|Hne].
  - rewrite register_lookup. intros [= <-]. apply register_cell_new.
  - rewrite register_lookup_ne by done. intros Hk.
    rewrite register_cell_old; [by eapply Hall|].
    eapply all_pending_well_formed; eauto.
Qed.

Lemma register_stored_once {P} m (a : Awaited P) :
  well_formed a → stored_once a → stored_once (snd (register m a)).
Proof.
  intros Hwf Hone k1 k2 fut.
  destruct (decide (m = k1)) as [->|Hne1], (decide (k1 = k2)) as [->|Hne2];
    try done.
  - rewrite register_lookup, register_lookup_ne by done.
    intros [= <-] Hk. apply Hwf in Hk. lia.
  - destruct (decide (m = k2)) as [->|Hne3].
    + rewrite register_lookup, register_lookup_ne by done.
      intros Hk [= <-]. apply Hwf in Hk. lia.
    + rewrite !register_lookup_ne by done. apply Hone.
Qed.

Lemma resolve_stored_once {P} m v (a : Awaited P) :
  stored_once a → stored_once (resolve m v a).
Proof.
  intros Hone k1 k2 fut H1 H2.
  eapply Hone; eapply resolve_lookup_Some; eauto.
Qed.

Lemma resolve_all_pending {P} m v (a : Awaited P) :
  stored_once a → all_pending a → all_pending (resolve m v a).
Proof.
  intros Hone Hall k fut.
  destruct (resolve_cases m v a) as [[-> _]|(fut' & Hm & _ & ->)]; [apply Hall|].
  simpl. intros Hk. apply lookup_delete_Some in Hk as [Hne Hk].
  rewrite list_lookup_insert_ne; [by eapply Hall|].
  intros ->. apply Hne. eapply Hone; eauto.
Qed.

Lemma apply_call_invariant c h :
  stored_once h ∧ all_pending h →
  stored_once (apply_call c h) ∧ all_pending (apply_call c h).
Proof.
  intros [Hone Hall]. destruct c as [message|address message]; simpl.
  - split; [apply register_stored_once; auto using all_pending_well_formed
           |by apply register_all_pending].
  - unfold process_nat_packet.
    split; [by apply resolve_stored_once|by apply resolve_all_pending].
Qed.

Lemma apply_calls_invariant cs h :
  stored_once h ∧ all_pending h →
  stored_once (apply_calls cs h) ∧ all_pending (apply_calls cs h).
Proof.
  revert h. induction cs as [|c cs IH]; intros h Hinv; [done|].
  simpl. apply IH, apply_call_invariant, Hinv.
Qed.

Lemma apply_call_length c h :
  (length (cells h) ≤ length (cells (apply_call c h)))%nat.
Proof.
  destruct c as [message|address message]; simpl.
  - rewrite length_app. simpl. lia.
  - unfold process_nat_packet. by rewrite resolve_length.
Qed.

(** A future that has left the table is never touched again. *)
Lemma apply_calls_unreferenced cs h fut :
  fut < length (cells h) → unreferenced fut h →
  cells (apply_calls cs h) !! fut = cells h !! fut.
Proof.
  revert h. induction cs as [|c cs IH]; intros h Hlt Hun; [done|].
  simpl. rewrite IH.
  - destruct c as [message|address message]; simpl.
    + by apply lookup_app_l.
    + by apply resolve_unreferenced_cell.
  - pose proof (apply_call_length c h). lia.
  - destruct c as [message|address message]; simpl.
    + by apply register_unreferenced.
    + by apply resolve_unreferenced.
Qed.

(** C6: two packets with the same matching text, processed back to back:
    the first call of [process_nat_packet] sets the result of the pending
    future and deletes it from the table, the second call changes nothing,
    so the future keeps the result of the first packet and is never resolved
    a second time. *)
Theorem process_nat_packet_resolves_once h message fut (first second : Address) :
  nat_packets h !! message = Some fut →
  cells h !! fut = Some FPending →
  let h1 := process_nat_packet first message h in
  let h2 := process_nat_packet second message h1 in
  cells h1 !! fut = Some (FDone (first, message)) ∧
  nat_packets h1 !! message = None ∧
  h2 = h1 ∧
  cells h2 !! fut = Some (FDone (first, message)).
Proof.
  intros Hm Hc h1 h2.
  assert (Hh1 : cells h1 !! fut = Some (FDone (first, message))).
  { subst h1. unfold process_nat_packet. rewrite (resolve_hit _ _ _ fut) by done.
    simpl. apply list_lookup_insert_eq. by eapply lookup_lt_Some. }
  assert (Hh2 : h2 = h1) by apply resolve_twice.
  repeat split; [done| |done|by rewrite Hh2].
  subst h1. unfold process_nat_packet. rewrite (resolve_hit _ _ _ fut) by done.
  simpl. apply lookup_delete_eq.
Qed.

Lemma process_nat_packet_resolves_once_witness :
  let h : NatHelper.t := snd (wait_for_natpacket_begin "Hello abc123" Awaited_init) in
  let h1 := process_nat_packet ("203.0.113.9", 51000%Z) "Hello abc123" h in
  nat_packets h !! "Hello abc123" = Some 0 ∧
  cells h !! 0 = Some FPending ∧
  process_nat_packet ("198.51.100.7", 6112%Z) "Hello abc123" h1 = h1.
Proof.
  intros h h1.
  assert (Hm : nat_packets h !! "Hello abc123" = Some 0) by (vm_compute; reflexivity).
  assert (Hc : cells h !! 0 = Some FPending) by reflexivity.
  split; [exact Hm|]. split; [exact Hc|].
  exact (proj1 (proj2 (proj2
    (process_nat_packet_resolves_once h "Hello abc123" 0
       ("203.0.113.9", 51000%Z) ("198.51.100.7", 6112%Z) Hm Hc)))).
Defined.

(** C7: registering a new expectation for a key whose expectation is still
    pending replaces it.  The table then holds the newer future; a matching
    packet resolves the newer future and leaves the older one pending; and
    whatever calls follow, the older future stays pending, so the
    superseded waiter is never resumed. *)
Theorem superseded_waiter_never_resolved h message old :
  well_formed h → stored_once h →
  nat_packets h !! message = Some old →
  cells h !! old = Some FPending →
  let new := fst (wait_for_natpacket_begin message h) in
  let h' := snd (wait_for_natpacket_begin message h) in
  new ≠ old ∧
  nat_packets h' !! message = Some new ∧
  cells h' !! new = Some FPending ∧
  (∀ source,
     cells (process_nat_packet source message h') !! new
       = Some (FDone (source, message)) ∧
     cells (process_nat_packet source message h') !! old = Some FPending) ∧
  (∀ calls sender,
     cells (apply_calls calls h') !! old = Some FPending ∧
     wait_for_natpacket_end message sender old (apply_calls calls h') = None).
Proof.
  intros Hwf Hone Hm Hc new h'.
  assert (Hlt : old < length (cells h)) by (by eapply lookup_lt_Some).
  assert (Hne : new ≠ old) by (subst new; simpl; lia).
  assert (Hun : unreferenced old h').
  { intros k. subst h'. unfold wait_for_natpacket_begin.
    destruct (decide (message = k)) as [<-|Hk].
    - rewrite register_lookup. intros [= Heq]. lia.
    - rewrite register_lookup_ne by done. intros Hk'.
      apply Hk. eapply Hone; eauto. }
  assert (Hold : cells h' !! old = Some FPending).
  { subst h'. unfold wait_for_natpacket_begin. by rewrite register_cell_old. }
  assert (Hlt' : old < length (cells h')) by (by eapply lookup_lt_Some).
  split; [done|]. split; [apply register_lookup|].
  split; [apply register_cell_new|]. split.
  - intros source. split.
    + unfold process_nat_packet.
      rewrite (resolve_hit _ _ _ new);
        [|apply register_lookup|apply register_cell_new].
      simpl. apply list_lookup_insert_eq. subst new. rewrite length_app. simpl. lia.
    + unfold process_nat_packet. by rewrite resolve_unreferenced_cell.
  - intros calls sender.
    assert (Hcell : cells (apply_calls calls h') !! old = Some FPending)
      by (by rewrite apply_calls_unreferenced).
    split; [done|]. unfold wait_for_natpacket_end. by rewrite Hcell.
Qed.

Lemma superseded_waiter_never_resolved_witness :
  let h : NatHelper.t := snd (wait_for_natpacket_begin "Hello abc123" Awaited_init) in
  let h' := snd (wait_for_natpacket_begin "Hello abc123" h) in
  cells (apply_calls [CallProcess ("203.0.113.9", 51000%Z) "Hello abc123";
                      CallProcess ("203.0.113.9", 51000%Z) "Hello abc123"] h') !! 0
    = Some FPending.
Proof.
  intros h h'.
  assert (Hwf : well_formed h).
  { apply register_well_formed, Awaited_init_well_formed. }
  assert (Hone : stored_once h).
  { apply register_stored_once; [apply Awaited_init_well_formed|].
    intros k1 k2 fut. simpl. by rewrite lookup_empty. }
  assert (Hm : nat_packets h !! "Hello abc123" = Some 0) by (vm_compute; reflexivity).
  assert (Hc : cells h !! 0 = Some FPending) by reflexivity.
  exact (proj1 (proj2 (proj2 (proj2 (proj2
    (superseded_waiter_never_resolved h "Hello abc123" 0 Hwf Hone Hm Hc))))
      _ None)).
Defined.

(** C8: [wait_for_natpacket] called with a sender, whose expectation resolves
    with a packet from another address, returns [None] and not the pair
    of address and message. *)
Theorem wait_for_natpacket_other_sender h message (sender source : Address) :
  source ≠ sender →
  let fut := fst (wait_for_natpacket_begin message h) in
  let h1 := snd (wait_for_natpacket_begin message h) in
  let h2 := process_nat_packet source message h1 in
  cells h2 !! fut = Some (FDone (source, message)) ∧
  wait_for_natpacket_end message (Some sender) fut h2 = Some (inl RetNone).
Proof.
  intros Hne fut h1 h2.
  assert (Hcell : cells h2 !! fut = Some (FDone (source, message))).
  { subst h2 h1 fut. unfold process_nat_packet, wait_for_natpacket_begin.
    rewrite (resolve_hit _ _ _ (length (cells h)));
      [|apply register_lookup|apply register_cell_new].
    simpl. apply list_lookup_insert_eq. rewrite length_app. simpl. lia. }
  split; [done|].
  unfold wait_for_natpacket_end. rewrite Hcell. simpl.
  by rewrite bool_decide_eq_false_2.
Qed.

Lemma wait_for_natpacket_other_sender_witness :
  let h1 : NatHelper.t := snd (wait_for_natpacket_begin "Hello abc123" Awaited_init) in
  let h2 := process_nat_packet ("203.0.113.9", 51000%Z) "Hello abc123" h1 in
  ("203.0.113.9", 51000%Z) ≠ ("10.0.0.5", 6112%Z) ∧
  wait_for_natpacket_end "Hello abc123" (Some ("10.0.0.5", 6112%Z)) 0 h2
    = Some (inl RetNone).
Proof.
  intros h1 h2.
  assert (Hne : ("203.0.113.9", 51000%Z) ≠ ("10.0.0.5", 6112%Z)) by discriminate.
  split; [exact Hne|].
  exact (proj2 (wait_for_natpacket_other_sender Awaited_init "Hello abc123"
                  ("10.0.0.5", 6112%Z) ("203.0.113.9", 51000%Z) Hne)).
Defined.

(** C10: after any sequence of [wait_for_natpacket] registrations and
    [process_nat_packet] calls on a new [NatHelper], every future that
    [nat_packets] holds is pending; a future with its result set is under
    no key, because the call that sets the result deletes the entry. *)
Theorem nat_packets_holds_only_pending (calls : list call) :
  let h := apply_calls calls Awaited_init in
  (∀ k fut, nat_packets h !! k = Some fut → cells h !! fut = Some FPending) ∧
  (∀ fut got, cells h !! fut = Some (FDone got) → unreferenced fut h).
Proof.
  intros h.
  assert (Hall : all_pending h).
  { apply apply_calls_invariant. split.
    - intros k1 k2 fut. simpl. by rewrite lookup_empty.
    - intros k fut. simpl. by rewrite lookup_empty. }
  split; [exact Hall|].
  intros fut got Hdone k Hk. apply Hall in Hk. congruence.
Qed.

End NatHelperFacts.

(** * Suspension and the record of effects *)

Section Suspension.
Implicit Types (w : World) (e : event) (evs : list (Q * event)).

Lemma same_setting_refl w : same_setting w w.
Proof. by repeat split. Qed.

Lemma same_setting_trans w1 w2 w3 :
  same_setting w1 w2 → same_setting w2 w3 → same_setting w1 w3.
Proof.
  intros (Hc & Hl & Hs) (Hc' & Hl' & Hs'). repeat split; [congruence..|auto].
Qed.

Lemma deliver_connection_eq e w :
  connection (deliver e w) = deliver_connection e (connection w).
Proof. by destruct e. Qed.

Lemma deliver_natserver_eq e w :
  natserver (deliver e w) = deliver_natserver e (natserver w).
Proof. by destruct e. Qed.

Lemma deliver_effects e w : effects (deliver e w) = effects w.
Proof. by destruct e. Qed.

Lemma deliver_setting e w : same_setting w (deliver e w).
Proof.
  destruct e; repeat split; try done.
  simpl. intros [s ->]. by eexists.
Qed.

(** Suspension leaves the settings alone and adds to the record only the
    mark of a cancellation. *)
Lemma suspend_effects {R} d (poll : World → option R) evs w :
  same_setting w (snd (suspend d poll evs w)) ∧
  effects (snd (suspend d poll evs w)) =
    effects w ++ match fst (suspend d poll evs w) with
                 | Interrupted => [GotCancelled]
                 | _ => []
                 end.
Proof.
  revert w. induction evs as [|[t e] evs IH]; intros w; simpl.
  - destruct (poll w); simpl; rewrite app_nil_r; by repeat split.
  - destruct (poll w); simpl; [rewrite app_nil_r; by repeat split|].
    destruct (Qlt_le_dec t d); [|simpl; rewrite app_nil_r; by repeat split].
    destruct e as [source message|source message|].
    + destruct (IH (deliver (ClientReport source message) (set_now t w)))
        as [Hset Heff].
      split; [|by rewrite Heff].
      eapply same_setting_trans; [|exact Hset].
      apply (deliver_setting (ClientReport source message) (set_now t w)).
    + destruct (IH (deliver (Datagram source message) (set_now t w)))
        as [Hset Heff].
      split; [|by rewrite Heff].
      eapply same_setting_trans; [|exact Hset].
      apply (deliver_setting (Datagram source message) (set_now t w)).
    + simpl. by repeat split.
Qed.

(** An invariant of the tables that the events still to come preserve holds
    when the coroutine is woken; if it is woken by [poll], then [poll] had
    its answer on these very tables. *)
Lemma suspend_keeps {R} (I : NatHelper.t → option NatPacketServer.t → Prop)
    (allowed : event → Prop) d (poll : World → option R) evs w :
  (∀ e h s, allowed e → I h s → I (deliver_connection e h) (deliver_natserver e s)) →
  Forall (λ te, allowed (snd te)) evs →
  I (connection w) (natserver w) →
  I (connection (snd (suspend d poll evs w))) (natserver (snd (suspend d poll evs w))) ∧
  Forall (λ te, allowed (snd te)) (inbox (snd (suspend d poll evs w))) ∧
  ∀ r, fst (suspend d poll evs w) = Completed r →
       ∃ w0, poll w0 = Some r ∧
             connection w0 = connection (snd (suspend d poll evs w)) ∧
             natserver w0 = natserver (snd (suspend d poll evs w)).
Proof.
  intros Hstep. revert w. induction evs as [|[t e] evs IH]; intros w Hall HI; simpl.
  - destruct (poll w) as [r0|] eqn:Hp; simpl.
    + repeat split; [done..|]. intros r [= <-]. by exists w.
    + by repeat split.
  - destruct (poll w) as [r0|] eqn:Hp; simpl.
    + repeat split; [done..|]. intros r [= <-]. by exists w.
    + apply Forall_cons in Hall as [He Hall]. simpl in He.
      destruct (Qlt_le_dec t d); [|simpl; repeat split; [done| |done]; by constructor].
      destruct e as [source message|source message|].
      * apply IH; [done|]. rewrite deliver_connection_eq, deliver_natserver_eq.
        by apply Hstep.
      * apply IH; [done|]. rewrite deliver_connection_eq, deliver_natserver_eq.
        by apply Hstep.
      * by repeat split.
Qed.

End Suspension.

(** Names the way the suspension in the goal ends and the world it ends in,
    with what [suspend_effects] says of them. *)
Ltac woken k w' Hset Heff :=
  match goal with
  | |- context [suspend ?d ?p ?evs ?w0] =>
      let H := fresh in
      pose proof (H := suspend_effects d p evs w0);
      destruct (suspend d p evs w0) as [k w'];
      destruct H as [Hset Heff]; simpl in Hset, Heff
  end.

Section Awaits.
Implicit Types (w : World).

Lemma sleep_cases delay w :
  ∃ w', same_setting w w' ∧
    ((sleep delay w = (Ok tt, w') ∧ effects w' = effects w ++ [DidSleep delay]) ∨
     (sleep delay w = (Raise CancelledError, w') ∧
      effects w' = effects w ++ [DidSleep delay; GotCancelled])).
Proof.
  unfold sleep. woken k w' Hset Heff.
  exists w'. split; [exact Hset|].
  destruct k; simpl in Heff; rewrite Heff, <- ?app_assoc; simpl;
    rewrite ?app_nil_r; auto.
Qed.

Lemma wait_for_packet_cases fut timeout w :
  ∃ w', same_setting w w' ∧
    ((∃ r, wait_for_packet fut timeout w = (Ok r, w') ∧
           effects w' = effects w ++ [DidWaitFor timeout]) ∨
     (wait_for_packet fut timeout w = (Raise TimeoutError, w') ∧
      effects w' = effects w ++ [DidWaitFor timeout]) ∨
     (wait_for_packet fut timeout w = (Raise CancelledError, w') ∧
      effects w' = effects w ++ [DidWaitFor timeout; GotCancelled])).
Proof.
  unfold wait_for_packet. woken k w' Hset Heff.
  assert (Hset' : same_setting w
            (set_natserver (cancel_future fut <$> natserver w') w')).
  { destruct Hset as (Hc & Hl & Hs). repeat split; try done.
    simpl. intros Hsome. destruct (Hs Hsome) as [s ->]. by eexists. }
  destruct k as [r| |]; simpl in Heff; rewrite <- ?app_assoc in Heff; simpl in Heff.
  - exists w'. split; [exact Hset|]. left. exists r. by rewrite Heff, ?app_nil_r.
  - eexists. split; cycle 1.
    + right. left. split; [reflexivity|]. simpl. by rewrite Heff, ?app_nil_r.
    + exact Hset'.
  - eexists. split; cycle 1.
    + right. right. split; [reflexivity|]. simpl. by rewrite Heff.
    + exact Hset'.
Qed.

Lemma wait_for_natpacket_task_cases message sender timeout w :
  ∃ w', same_setting w w' ∧
    ((∃ r, wait_for_natpacket_task message sender timeout w = (Ok r, w') ∧
           effects w' = effects w ++ [DidWaitFor timeout]) ∨
     (∃ x : exn, wait_for_natpacket_task message sender timeout w = (Raise x, w') ∧
           timeout_or_cancelled x = true ∧
           effects w' = effects w ++ [DidWaitFor timeout]) ∨
     (wait_for_natpacket_task message sender timeout w = (Raise CancelledError, w') ∧
      effects w' = effects w ++ [DidWaitFor timeout; GotCancelled])).
Proof.
  unfold wait_for_natpacket_task, NatHelper.wait_for_natpacket_begin, register.
  woken k w' Hset Heff.
  destruct k as [[r|u]| |]; simpl in Heff; rewrite <- ?app_assoc in Heff;
    simpl in Heff.
  - exists w'. split; [exact Hset|]. left. exists r. by rewrite Heff, ?app_nil_r.
  - exists w'. split; [exact Hset|]. right. left. exists CancelledError.
    by rewrite Heff, ?app_nil_r.
  - eexists. split; cycle 1.
    + right. left. exists TimeoutError. split; [reflexivity|]. split; [done|].
      simpl. by rewrite Heff, ?app_nil_r.
    + exact Hset.
  - eexists. split; cycle 1.
    + right. right. split; [reflexivity|]. simpl. by rewrite Heff.
    + exact Hset.
Qed.

End Awaits.

(** * The shape of a run *)

Section Runs.
Implicit Types (w : World) (self : ConnectivityTest).

(** The three sends of [test_public]: the first one starts the listener if
    there is none, and nothing is sent if that raises. *)
Lemma three_sends address msg w :
  (∃ e, natserver w = None ∧ listen_raises w = Some e ∧
        for_range 3 (send_natpacket address msg) w =
          (Raise e, did DidListen (set_natserver (Some NatPacketServer.init) w))) ∨
  (listener_ok w ∧
   ∃ w', for_range 3 (send_natpacket address msg) w = (Ok tt, w') ∧
         effects w' = effects w ++
           (if listener_started w then [] else [DidListen]) ++
           replicate 3 (DidSend address msg) ∧
         is_Some (natserver w') ∧ config w' = config w ∧
         now w' = now w ∧ inbox w' = inbox w ∧ connection w' = connection w ∧
         (∀ s, natserver w = Some s → natserver w' = Some s) ∧
         (natserver w = None → natserver w' = Some NatPacketServer.init)).
Proof.
  unfold listener_ok, listener_started.
  destruct (natserver w) as [s|] eqn:Hs; [|destruct (listen_raises w) as [e|] eqn:Hl].
  - right. split; [left; by eexists|].
    eexists. split.
    { unfold for_range, send_natpacket, ret.
      repeat progress (unfold bind; simpl; rewrite ?Hs). reflexivity. }
    simpl. rewrite <- !app_assoc. simpl. rewrite Hs.
    repeat split; first [done | by eexists].
  - left. exists e. repeat split.
    unfold for_range, send_natpacket, listen, ret.
    repeat progress (unfold bind; simpl; rewrite ?Hs, ?Hl). reflexivity.
  - right. split; [by right|].
    eexists. split.
    { unfold for_range, send_natpacket, listen, ret.
      repeat progress (unfold bind; simpl; rewrite ?Hs, ?Hl). reflexivity. }
    simpl. rewrite <- !app_assoc. simpl.
    repeat split; first [done | by eexists].
Qed.

Lemma test_public_cases self w :
  (∃ e, natserver w = None ∧ listen_raises w = Some e ∧
        fst (test_public self w) = Raise e ∧
        effects (snd (test_public self w)) = effects w ++ [DidListen]) ∨
  (listener_ok w ∧
   ∃ b cancelled w',
     test_public self w = (Ok b, w') ∧
     effects w' = effects w ++ public_run self (listener_started w) cancelled ∧
     (cancelled = true → b = false) ∧
     is_Some (natserver w') ∧ config w' = config w).
Proof.
  unfold test_public.
  destruct (three_sends (remote_addr self) (public_message (identifier self)) w)
    as [(e & Hs & Hl & Heq)|(Hok & w1 & Heq & Heff & Hsome & Hcfg & _)].
  - left. exists e. unfold bind. rewrite Heq. simpl. by repeat split.
  - right. split; [done|]. unfold bind at 1. rewrite Heq. unfold try_except, bind, ret.
    destruct (wait_for_natpacket_task_cases (public_message (identifier self))
                None 1 w1)
      as (w2 & (Hc2 & _ & Hs2) & [(r & Hw & Heff2)|[(x & Hw & Hx & Heff2)|[Hw Heff2]]]);
      rewrite Hw; simpl; rewrite ?Hx.
    + exists true, false, w2. split; [done|]. unfold public_run.
      rewrite Heff2, Heff, <- !app_assoc. simpl. rewrite ?app_nil_r.
      repeat split; [done|auto|congruence].
    + exists false, false, w2. split; [done|]. unfold public_run.
      rewrite Heff2, Heff, <- !app_assoc. simpl. rewrite ?app_nil_r.
      repeat split; [auto|congruence].
    + exists false, true, w2. split; [done|]. unfold public_run.
      rewrite Heff2, Heff, <- !app_assoc. simpl.
      repeat split; [auto|congruence].
Qed.

Lemma test_stun_round_cases self message w :
  is_Some (natserver w) →
  ∃ r w',
    test_stun_round self message w = (r, w') ∧
    config w' = config w ∧ is_Some (natserver w') ∧
    ((∃ source, r = Ok (Some source) ∧
        effects w' = effects w ++
          [gpgnet_request (config w) message; DidSleep (1 # 10); DidWaitFor (5 # 10)]) ∨
     (r = Raise CancelledError ∧
        effects w' = effects w ++
          [gpgnet_request (config w) message; DidSleep (1 # 10); GotCancelled]) ∨
     (r = Ok None ∧
        effects w' = effects w ++
          [gpgnet_request (config w) message; DidSleep (1 # 10); DidWaitFor (5 # 10)]) ∨
     (r = Ok None ∧
        effects w' = effects w ++
          [gpgnet_request (config w) message; DidSleep (1 # 10); DidWaitFor (5 # 10);
           GotCancelled])).
Proof.
  intros [s Hs]. unfold test_stun_round, natserver_await_packet, send_gpgnet_message.
  unfold bind at 1. rewrite Hs. simpl. unfold bind at 1. unfold bind at 1.
  set (w1 := did _ _).
  assert (Hs1 : is_Some (natserver w1)) by (by eexists).
  assert (Hc1 : config w1 = config w) by reflexivity.
  destruct (sleep_cases (1 # 10) w1)
    as (w2 & (Hc2 & _ & Hs2) & [[Hsl Heff2]|[Hsl Heff2]]); rewrite Hsl.
  - unfold try_except, bind.
    destruct (wait_for_packet_cases (length (cells s)) (5 # 10) w2)
      as (w3 & (Hc3 & _ & Hs3) & [([received source] & Hw & Heff3)|[[Hw Heff3]|[Hw Heff3]]]);
      rewrite Hw; simpl.
    + unfold ret. destruct (String.eqb received message);
        do 2 eexists; (split; [reflexivity|]);
        (split; [congruence|]); (split; [auto|]).
      * left. exists source. split; [done|].
        rewrite Heff3, Heff2. subst w1. simpl. by rewrite <- !app_assoc.
      * right. right. left. split; [done|].
        rewrite Heff3, Heff2. subst w1. simpl. by rewrite <- !app_assoc.
    + do 2 eexists. split; [reflexivity|]. split; [congruence|]. split; [auto|].
      right. right. left. split; [done|].
      rewrite Heff3, Heff2. subst w1. simpl. by rewrite <- !app_assoc.
    + do 2 eexists. split; [reflexivity|]. split; [congruence|]. split; [auto|].
      right. right. right. split; [done|].
      rewrite Heff3, Heff2. subst w1. simpl. by rewrite <- !app_assoc.
  - do 2 eexists. split; [reflexivity|]. split; [congruence|]. split; [auto|].
    right. left. split; [done|].
    rewrite Heff2. subst w1. simpl. by rewrite <- !app_assoc.
Qed.

Lemma test_stun_loop_run self message n w :
  is_Some (natserver w) →
  ∃ tr,
    effects (snd (test_stun_loop self message n w)) = effects w ++ tr ∧
    stun_run (config w) message n tr (fst (test_stun_loop self message n w)).
Proof.
  revert w. induction n as [|n IH]; intros w Hs; simpl.
  - exists []. rewrite app_nil_r. split; [done|]. constructor.
  - unfold bind.
    destruct (test_stun_round_cases self message w Hs)
      as (r & w1 & Hr & Hc1 & Hs1 &
          [(source & -> & Heff)|[[-> Heff]|[[-> Heff]|[-> Heff]]]]);
      rewrite Hr; simpl.
    + eexists. split; [exact Heff|]. constructor.
    + eexists. split; [exact Heff|]. constructor.
    + destruct (IH w1 Hs1) as (tr & Heff' & Hrun).
      eexists. split.
      * rewrite Heff', Heff, <- app_assoc. reflexivity.
      * rewrite Hc1 in Hrun. by apply stun_run_unseen.
    + destruct (IH w1 Hs1) as (tr & Heff' & Hrun).
      eexists. split.
      * rewrite Heff', Heff, <- app_assoc. reflexivity.
      * rewrite Hc1 in Hrun. by apply stun_run_cancelled.
Qed.

End Runs.

(** * determine_connectivity: what every run looks like *)

Section Classification.
Implicit Types (w : World) (self : ConnectivityTest).

Lemma stun_run_raises c message n tr e :
  stun_run c message n tr (Raise e) → e = CancelledError.
Proof.
  intros Hrun. remember (Raise e) as r eqn:Hr.
  induction Hrun; try discriminate; [congruence|auto..].
Qed.

Lemma stun_run_counts c message n tr r :
  stun_run c message n tr r →
  count_effects is_send tr = 0 ∧
  (count_effects is_request tr ≤ n)%nat ∧
  (count_effects is_sleep tr ≤ n)%nat ∧
  (count_effects is_wait tr ≤ n)%nat.
Proof.
  unfold count_effects.
  induction 1 as [| | |n tr r _ (IH0 & IH1 & IH2 & IH3)|n tr r _ (IH0 & IH1 & IH2 & IH3)];
    simpl; repeat split; lia.
Qed.

(** A loop that ends with an address ends on the wait that saw the packet. *)
Lemma stun_run_seen_last c message n tr source :
  stun_run c message n tr (Ok (Some source)) → last tr = Some (DidWaitFor (5 # 10)).
Proof.
  intros Hrun. remember (Ok (Some source)) as r eqn:Hr.
  induction Hrun as [| | |n tr r _ IH|n tr r _ IH]; try discriminate; [done|..].
  - rewrite last_app, (IH Hr). done.
  - rewrite last_app, (IH Hr). done.
Qed.

Lemma stun_run_nonempty c message n tr r :
  stun_run c message (S n) tr r → tr ≠ [].
Proof. inversion 1; discriminate. Qed.

(** One more pass of the loop of [test_stun]. *)
Lemma test_stun_loop_step self message n w :
  test_stun_loop self message (S n) w =
    match test_stun_round self message w with
    | (Ok (Some address), w') => (Ok (Some address), w')
    | (Ok None, w') => test_stun_loop self message n w'
    | (Raise e, w') => (Raise e, w')
    end.
Proof.
  simpl. unfold bind.
  by destruct (test_stun_round self message w) as [[[address|]|e] w'].
Qed.

(** [determine_connectivity] in terms of its two phases. *)
Lemma determine_connectivity_phases self w :
  determine_connectivity self w =
    match test_public self w with
    | (Ok true, w1) =>
        (Ok (mkConnectivity (AddrText (format_address (remote_addr self))) PUBLIC), w1)
    | (Ok false, w1) =>
        match test_stun self w1 with
        | (Ok address, w2) => (Ok (verdict (Ok address)), w2)
        | (Raise e, w2) =>
            if timeout_or_cancelled e
            then (Ok (mkConnectivity AddrNone PROXY), w2)
            else (Raise e, w2)
        end
    | (Raise e, w1) =>
        if timeout_or_cancelled e
        then (Ok (mkConnectivity AddrNone PROXY), w1)
        else (Raise e, w1)
    end.
Proof.
  unfold determine_connectivity, bind, try_except, ret.
  destruct (test_public self w) as [[[|]|e] w1]; simpl.
  - reflexivity.
  - destruct (test_stun self w1) as [[[source|]|e] w2]; simpl; try reflexivity.
    by destruct (timeout_or_cancelled e).
  - by destruct (timeout_or_cancelled e).
Qed.

(** Every run either stops at a listener that fails to start, or goes
    through the PUBLIC phase and, unless that succeeds, through the STUN
    loop. *)
Lemma determine_connectivity_run self w :
  (∃ e, natserver w = None ∧ listen_raises w = Some e ∧
        effects (snd (determine_connectivity self w)) = effects w ++ [DidListen] ∧
        fst (determine_connectivity self w) =
          if timeout_or_cancelled e then Ok (mkConnectivity AddrNone PROXY)
          else Raise e) ∨
  (listener_ok w ∧
   ∃ cancelled tr,
     effects (snd (determine_connectivity self w)) =
       effects w ++ public_run self (listener_started w) cancelled ++ tr ∧
     ((tr = [] ∧ cancelled = false ∧
       fst (determine_connectivity self w) =
         Ok (mkConnectivity (AddrText (format_address (remote_addr self))) PUBLIC)) ∨
      (∃ r, stun_run (config w) (stun_message (identifier self)) 3 tr r ∧
            fst (determine_connectivity self w) = Ok (verdict r)))).
Proof.
  rewrite determine_connectivity_phases.
  destruct (test_public_cases self w)
    as [(e & Hs & Hl & Hfst & Heff)|(Hok & b & cancelled & w1 & Hpub & Heff & Hb & Hs1 & Hc1)].
  - left. exists e. split; [done|]. split; [done|].
    destruct (test_public self w) as [o w1]. simpl in Hfst, Heff. subst o.
    destruct (timeout_or_cancelled e); simpl; by split.
  - right. split; [done|]. exists cancelled. rewrite Hpub.
    destruct b.
    + exists []. simpl. rewrite app_nil_r. split; [done|]. left.
      split; [done|]. split; [|done]. destruct cancelled; [|done].
      by specialize (Hb eq_refl).
    + unfold test_stun.
      destruct (test_stun_loop_run self (stun_message (identifier self)) 3 w1 Hs1)
        as (tr & Heff' & Hrun).
      rewrite Hc1 in Hrun.
      destruct (test_stun_loop self (stun_message (identifier self)) 3 w1)
        as [r w2].
      simpl in Heff', Hrun. exists tr.
      assert (Heffects : effects w2 =
                effects w ++ public_run self (listener_started w) cancelled ++ tr)
        by (by rewrite Heff', Heff, <- app_assoc).
      destruct r as [address|e].
      * split; [done|]. right. by eexists.
      * pose proof (stun_run_raises _ _ _ _ _ Hrun) as ->. simpl.
        split; [done|]. right. by eexists.
Qed.

End Classification.

(** * The clock *)

Section Clock.
Implicit Types (w : World) (self : ConnectivityTest).

(** A suspension never ends after its deadline. *)
Lemma suspend_now {R} d (poll : World → option R) evs w :
  (now w <= d)%Q → (now (snd (suspend d poll evs w)) <= d)%Q.
Proof.
  revert w. induction evs as [|[t e] evs IH]; intros w Hnow; simpl.
  - destruct (poll w); simpl; [done|lra].
  - destruct (poll w); simpl; [done|].
    destruct (Qlt_le_dec t d) as [Hlt|_]; [|simpl; lra].
    destruct e as [source message|source message|]; [apply IH; simpl; lra..|].
    simpl. lra.
Qed.

Lemma sleep_now delay w :
  (0 <= delay)%Q → (now (snd (sleep delay w)) <= now w + delay)%Q.
Proof.
  intros Hdelay. unfold sleep.
  pose proof (suspend_now (now (did (DidSleep delay) w) + delay) (λ _, @None unit)
                (inbox (did (DidSleep delay) w)) (did (DidSleep delay) w)) as Hs.
  destruct (suspend _ _ _ _) as [[[]| |] w']; simpl in *; apply Hs; lra.
Qed.

Lemma wait_for_packet_now fut timeout w :
  (0 <= timeout)%Q → (now (snd (wait_for_packet fut timeout w)) <= now w + timeout)%Q.
Proof.
  intros Htimeout. unfold wait_for_packet.
  pose proof (suspend_now (now (did (DidWaitFor timeout) w) + timeout)
                (λ w, s ← natserver w; future_result fut s)
                (inbox (did (DidWaitFor timeout) w)) (did (DidWaitFor timeout) w)) as Hs.
  destruct (suspend _ _ _ _) as [[r| |] w']; simpl in *; apply Hs; lra.
Qed.

Lemma wait_for_natpacket_task_now message sender timeout w :
  (0 <= timeout)%Q →
  (now (snd (wait_for_natpacket_task message sender timeout w)) <= now w + timeout)%Q.
Proof.
  intros Htimeout. unfold wait_for_natpacket_task, NatHelper.wait_for_natpacket_begin.
  simpl.
  match goal with
  | |- context [suspend ?d ?p ?evs ?w0] => pose proof (suspend_now d p evs w0) as Hs
  end.
  destruct (suspend _ _ _ _) as [[[r|u]| |] w']; simpl in *; apply Hs; lra.
Qed.

Lemma test_public_now self w :
  (now (snd (test_public self w)) <= now w + 1)%Q.
Proof.
  unfold test_public.
  destruct (three_sends (remote_addr self) (public_message (identifier self)) w)
    as [(e & _ & _ & Heq)|(_ & w1 & Heq & _ & _ & _ & Hnow & _)];
    unfold bind at 1; rewrite Heq; [simpl; lra|].
  pose proof (wait_for_natpacket_task_now (public_message (identifier self)) None 1 w1)
    as Hwait.
  unfold try_except, bind, ret.
  destruct (wait_for_natpacket_task _ _ _ _) as [[r|e] w2]; simpl in *;
    [|destruct (timeout_or_cancelled e); simpl]; rewrite <- Hnow; apply Hwait; lra.
Qed.

Lemma test_stun_round_now self message w :
  (now (snd (test_stun_round self message w)) <= now w + (1 # 10) + (5 # 10))%Q.
Proof.
  unfold test_stun_round, natserver_await_packet, send_gpgnet_message.
  unfold bind at 1. destruct (natserver w) as [s|]; simpl; [|lra].
  unfold bind at 1. unfold bind at 1.
  match goal with
  | |- context [sleep ?d ?w0] => pose proof (sleep_now d w0) as Hsleep
  end.
  destruct (sleep _ _) as [[[]|e] w2]; simpl in *; [|lra].
  pose proof (wait_for_packet_now (length (cells s)) (5 # 10) w2) as Hwait.
  unfold try_except, bind, ret.
  destruct (wait_for_packet _ _ _) as [[[received address]|e] w3]; simpl in *.
  - destruct (String.eqb received message); simpl; lra.
  - destruct (timeout_or_cancelled e); simpl; lra.
Qed.

Lemma test_stun_now self w :
  (now (snd (test_stun self w)) <= now w + (18 # 10))%Q.
Proof.
  change (test_stun self w)
    with (test_stun_loop self (stun_message (identifier self)) 3 w).
  set (message := stun_message (identifier self)).
  rewrite (test_stun_loop_step self message 2 w).
  pose proof (test_stun_round_now self message w) as H1.
  destruct (test_stun_round self message w) as [[[address|]|e] w1]; cbn [snd] in *;
    [lra| |lra].
  rewrite (test_stun_loop_step self message 1 w1).
  pose proof (test_stun_round_now self message w1) as H2.
  destruct (test_stun_round self message w1) as [[[address|]|e] w2]; cbn [snd] in *;
    [lra| |lra].
  rewrite (test_stun_loop_step self message 0 w2).
  pose proof (test_stun_round_now self message w2) as H3.
  destruct (test_stun_round self message w2) as [[[address|]|e] w3]; simpl in *; lra.
Qed.

(** The clock at the end of a run is at most 1 + 3 x (0.1 + 0.5) after the
    clock at its beginning. *)
Lemma determine_connectivity_now self w :
  (now (snd (determine_connectivity self w)) <= now w + (28 # 10))%Q.
Proof.
  rewrite determine_connectivity_phases.
  pose proof (test_public_now self w) as Hpub.
  destruct (test_public self w) as [[[|]|e] w1]; simpl in *.
  - lra.
  - pose proof (test_stun_now self w1) as Hstun.
    destruct (test_stun self w1) as [[address|e] w2]; simpl in *;
      [|destruct (timeout_or_cancelled e); simpl]; lra.
  - destruct (timeout_or_cancelled e); simpl; lra.
Qed.

End Clock.

(** * Bounded attempts and the handling of failures *)

Section Bounds.
Implicit Types (w : World) (self : ConnectivityTest).

(** With a listener that is available a run returns a classification. *)
Lemma determine_connectivity_returns self w :
  listener_ok w →
  ∃ c, fst (determine_connectivity self w) = Ok c ∧
       (state c = PUBLIC ∨ state c = STUN ∨ state c = PROXY) ∧
       (state c = PROXY ↔ addr c = AddrNone).
Proof.
  intros Hok.
  destruct (determine_connectivity_run self w)
    as [(e & Hs & Hl & _)|(_ & cancelled & tr & _ & Hshape)].
  { destruct Hok as [[s Hs']|Hl']; congruence. }
  destruct Hshape as [(_ & _ & ->)|(r & _ & ->)].
  - eexists. split; [done|]. simpl. split; [auto|]. split; discriminate.
  - eexists. split; [done|].
    destruct r as [[source|]|e]; simpl; (split; [auto|]); split; done.
Qed.

(** C9: a run whose listener is available performs, in this order, exactly
    three sends and a single wait of one time unit, then at most three
    rounds of the STUN loop one after the other (request, settle delay of
    0.1, wait of 0.5), and nothing else: no send, wait or round is
    repeated beyond these.  The run ends with a classification, and its
    clock has then advanced by at most 1 + 3 x (0.1 + 0.5) time units. *)
Theorem determine_connectivity_bounded_attempts self w :
  listener_ok w →
  ∃ cancelled tr,
    effects (snd (determine_connectivity self w)) =
      effects w ++ public_run self (listener_started w) cancelled ++ tr ∧
    (tr = [] ∨
     ∃ r, stun_run (config w) (stun_message (identifier self)) 3 tr r) ∧
    count_effects is_send (public_run self (listener_started w) cancelled ++ tr) = 3 ∧
    count_effects is_wait (public_run self (listener_started w) cancelled) = 1 ∧
    (count_effects is_request tr ≤ 3)%nat ∧
    (count_effects is_sleep tr ≤ 3)%nat ∧
    (count_effects is_wait tr ≤ 3)%nat ∧
    (∃ c, fst (determine_connectivity self w) = Ok c) ∧
    (now (snd (determine_connectivity self w)) <= now w + (28 # 10))%Q.
Proof.
  intros Hok.
  pose proof (determine_connectivity_now self w) as Hclock.
  destruct (determine_connectivity_returns self w Hok) as (c & Hc & _).
  destruct (determine_connectivity_run self w)
    as [(e & Hs & Hl & _)|(_ & cancelled & tr & Heff & Hshape)].
  { destruct Hok as [[s Hs']|Hl']; congruence. }
  exists cancelled, tr. split; [exact Heff|].
  assert (Hpub_sends : ∀ l,
            count_effects is_send (public_run self (listener_started w) cancelled ++ l)
            = 3 + count_effects is_send l).
  { intros l. unfold count_effects, public_run.
    by destruct (listener_started w), cancelled. }
  assert (Hpub_waits :
            count_effects is_wait (public_run self (listener_started w) cancelled) = 1).
  { unfold count_effects, public_run. by destruct (listener_started w), cancelled. }
  rewrite Hpub_sends.
  assert (Hcounts : count_effects is_send tr = 0 ∧
                    (count_effects is_request tr ≤ 3)%nat ∧
                    (count_effects is_sleep tr ≤ 3)%nat ∧
                    (count_effects is_wait tr ≤ 3)%nat).
  { destruct Hshape as [(-> & _ & _)|(r & Hrun & _)].
    - unfold count_effects. simpl. repeat split; lia.
    - by apply (stun_run_counts _ _ _ _ _ Hrun). }
  destruct Hcounts as (H0 & H1 & H2 & H3).
  split.
  { destruct Hshape as [(-> & _ & _)|(r & Hrun & _)]; [by left|right; by exists r]. }
  rewrite H0. repeat split; try done. by exists c.
Qed.

Lemma determine_connectivity_bounded_attempts_witness :
  listener_ok (example_world []) ∧
  ∃ cancelled tr,
    effects (snd (determine_connectivity example_test (example_world []))) =
      [] ++ public_run example_test false cancelled ++ tr ∧
    (count_effects is_request tr ≤ 3)%nat.
Proof.
  assert (Hok : listener_ok (example_world [])) by (by right).
  split; [exact Hok|].
  destruct (determine_connectivity_bounded_attempts example_test (example_world []) Hok)
    as (cancelled & tr & Heff & _ & _ & _ & Hreq & _).
  exists cancelled, tr. split; [exact Heff|exact Hreq].
Defined.

(** C1, as the code has it: [determine_connectivity] raises nothing but
    what the listener raises when it fails to start; with a listener that is
    available it returns a [Connectivity] whose state is PUBLIC, STUN or
    PROXY, with an address unless the state is PROXY; a [TimeoutError] or
    [CancelledError] is never passed on to the caller, and one raised by the
    start of the listener gives [(None, PROXY)]; a cancellation after
    which the run does nothing more (one that arrives during a settle delay
    or during the wait of the last round) gives [(None, PROXY)]. *)
Theorem determine_connectivity_never_fails self w :
  (∀ e, fst (determine_connectivity self w) = Raise e →
        timeout_or_cancelled e = false ∧
        natserver w = None ∧ listen_raises w = Some e) ∧
  (listener_ok w →
   ∃ c, fst (determine_connectivity self w) = Ok c ∧
        (state c = PUBLIC ∨ state c = STUN ∨ state c = PROXY) ∧
        (state c = PROXY ↔ addr c = AddrNone)) ∧
  (∀ e, natserver w = None → listen_raises w = Some e →
        timeout_or_cancelled e = true →
        fst (determine_connectivity self w) = Ok (mkConnectivity AddrNone PROXY)) ∧
  (last (effects (snd (determine_connectivity self w))) = Some GotCancelled →
   fst (determine_connectivity self w) = Ok (mkConnectivity AddrNone PROXY)).
Proof.
  destruct (determine_connectivity_run self w)
    as [(e & Hs & Hl & Heff & Hres)|(Hok & cancelled & tr & Heff & Hshape)].
  - repeat split.
    + rewrite Hres in H. by destruct (timeout_or_cancelled e) eqn:He; simplify_eq.
    + done.
    + rewrite Hres in H. destruct (timeout_or_cancelled e); by simplify_eq.
    + intros [[s Hs']|Hl']; congruence.
    + intros e' _ Hl' He'. rewrite Hres. by simplify_eq; rewrite He'.
    + rewrite Heff, last_snoc. discriminate.
  - pose proof (determine_connectivity_returns self w Hok) as Hret.
    repeat split.
    + destruct Hret as (c & Hc & _). congruence.
    + destruct Hret as (c & Hc & _). congruence.
    + destruct Hret as (c & Hc & _). congruence.
    + done.
    + intros e Hs. destruct Hok as [[s Hs']|Hl']; congruence.
    + destruct Hshape as [(-> & -> & _)|(r & Hrun & ->)].
      * rewrite Heff, app_nil_r, last_app. unfold public_run.
        destruct (listener_started w); simpl; discriminate.
      * rewrite Heff, !last_app.
        destruct r as [[source|]|e]; simpl; try done.
        by rewrite (stun_run_seen_last _ _ _ _ _ Hrun).
Qed.

Lemma determine_connectivity_never_fails_witness :
  let w := example_world [((105 # 100)%Q, Cancel)] in
  last (effects (snd (determine_connectivity example_test w))) = Some GotCancelled ∧
  fst (determine_connectivity example_test w) = Ok (mkConnectivity AddrNone PROXY).
Proof.
  intros w.
  assert (Hlast : last (effects (snd (determine_connectivity example_test w)))
                  = Some GotCancelled) by (vm_compute; reflexivity).
  split; [exact Hlast|].
  exact (proj2 (proj2 (proj2 (determine_connectivity_never_fails example_test w)))
           Hlast).
Defined.

(** C1, as the claim has it, fails: a run that is cancelled while it waits
    for the PUBLIC echo goes on to the STUN phase, and a datagram seen there
    makes it return STUN with the source of the datagram, not
    [(None, PROXY)]. *)
Lemma cancelled_run_classified_stun :
  In GotCancelled
     (effects (snd (determine_connectivity example_test cancelled_then_seen))) ∧
  fst (determine_connectivity example_test cancelled_then_seen) =
    Ok (mkConnectivity (AddrWire ("203.0.113.9", 51000%Z)) STUN) ∧
  fst (determine_connectivity example_test cancelled_then_seen) ≠
    Ok (mkConnectivity AddrNone PROXY).
Proof.
  assert (Hres : fst (determine_connectivity example_test cancelled_then_seen) =
                 Ok (mkConnectivity (AddrWire ("203.0.113.9", 51000%Z)) STUN))
    by (vm_compute; reflexivity).
  split; [vm_compute; tauto|]. split; [exact Hres|].
  rewrite Hres. discriminate.
Qed.

End Bounds.

(** * The PUBLIC phase sees its echo *)

Section PublicEcho.
Implicit Types (w : World) (self : ConnectivityTest).

Lemma suspend_ready {R} d (poll : World → option R) evs w r :
  poll w = Some r → suspend d poll evs w = (Completed r, set_inbox evs w).
Proof. intros Hp. destruct evs as [|[t e] evs]; simpl; by rewrite Hp. Qed.

Lemma register_pending_or_done {P} m (a : Awaited P) :
  pending_or_done m (length (cells a)) (snd (register m a)).
Proof. left. split; [apply register_lookup|apply register_cell_new]. Qed.

Lemma resolve_pending_or_done {P} m fut k v (a : Awaited P) :
  pending_or_done m fut a → pending_or_done m fut (resolve k v a).
Proof.
  intros [[Hm Hc]|[v' Hc]].
  - destruct (resolve_cases k v a) as [[-> _]|(fut' & Hk & Hc' & ->)]; [by left|].
    destruct (decide (fut' = fut)) as [->|Hne].
    + right. exists v. simpl. apply list_lookup_insert_eq. by eapply lookup_lt_Some.
    + left. simpl. split.
      * rewrite lookup_delete_ne; [done|]. intros ->. congruence.
      * by rewrite list_lookup_insert_ne.
  - right. exists v'. by apply resolve_settled.
Qed.

Lemma resolve_pending_or_done_hit {P} m fut v (a : Awaited P) :
  pending_or_done m fut a → ∃ v', cells (resolve m v a) !! fut = Some (FDone v').
Proof.
  intros [[Hm Hc]|[v' Hc]].
  - exists v. rewrite (resolve_hit _ _ _ fut) by done. simpl.
    apply list_lookup_insert_eq. by eapply lookup_lt_Some.
  - exists v'. by apply resolve_settled.
Qed.

Lemma deliver_pending_or_done m fut e w t :
  pending_or_done m fut (connection w) →
  pending_or_done m fut (connection (deliver e (set_now t w))).
Proof.
  intros Hpd. destruct e as [source message|source message|]; simpl; try done.
  by apply resolve_pending_or_done.
Qed.

(** While its future is stored and pending, or done, the task that awaits a
    packet is woken with a value by a report of that packet, if not
    before. *)
Lemma suspend_until_report message sender fut d t source post pre w :
  pending_or_done message fut (connection w) →
  Forall (λ te, (fst te < d)%Q ∧ snd te ≠ Cancel) pre →
  (t < d)%Q →
  ∃ r w',
    suspend d
      (λ w, NatHelper.wait_for_natpacket_end message sender fut (connection w))
      (pre ++ (t, ClientReport source message) :: post) w
    = (Completed (inl r), w').
Proof.
  intros Hpd Hpre Ht. revert w Hpd.
  induction Hpre as [|[t' e'] pre [Ht' He'] Hpre IH]; intros w Hpd.
  - simpl. unfold NatHelper.wait_for_natpacket_end at 1.
    destruct Hpd as [[Hm Hc]|[v Hc]]; rewrite Hc; [|by eauto].
    destruct (Qlt_le_dec t d) as [_|Hle]; [|lra].
    destruct (resolve_pending_or_done_hit message fut (source, message)
                (connection w)) as [v' Hv']; [by left|].
    erewrite suspend_ready; [by eauto|].
    simpl. unfold NatHelper.wait_for_natpacket_end, NatHelper.process_nat_packet.
    by rewrite Hv'.
  - simpl in *. unfold NatHelper.wait_for_natpacket_end at 1.
    destruct Hpd as [[Hm Hc]|[v Hc]]; rewrite Hc; [|by eauto].
    destruct (Qlt_le_dec t' d) as [_|Hle]; [|lra].
    assert (Hpd' : pending_or_done message fut (connection (deliver e' (set_now t' w))))
      by (apply deliver_pending_or_done; by left).
    destruct e' as [source' message'|source' message'|]; [by apply IH..|done].
Qed.

Lemma test_public_echo self w pre t source post :
  listener_ok w →
  inbox w = pre ++ (t, ClientReport source (public_message (identifier self))) :: post →
  Forall (λ te, (fst te < now w + 1)%Q ∧ snd te ≠ Cancel) pre →
  (t < now w + 1)%Q →
  fst (test_public self w) = Ok true.
Proof.
  intros Hok Hin Hpre Ht. unfold test_public.
  destruct (three_sends (remote_addr self) (public_message (identifier self)) w)
    as [(e & Hs & Hl & _)|(_ & w1 & Heq & _ & _ & _ & Hnow & Hinbox & Hconn & _)].
  { destruct Hok as [[s Hs']|Hl']; congruence. }
  unfold bind at 1. rewrite Heq. unfold try_except, bind.
  unfold wait_for_natpacket_task, NatHelper.wait_for_natpacket_begin.
  simpl. rewrite Hnow, Hinbox, Hin.
  edestruct (suspend_until_report (public_message (identifier self)) None
               (length (cells (connection w1))) (now w + 1)%Q t source post pre)
    as (r & w2 & Hsus); [|exact Hpre|exact Ht|rewrite Hsus; done].
  simpl. apply register_pending_or_done.
Qed.

(** C2: when a packet whose text is exactly the PUBLIC probe message is
    reported to the connection less than one time unit after the sends
    (the events before it being earlier still, and none of them a
    cancellation of the run), [determine_connectivity] returns the state
    PUBLIC with the dialed address written as host:port. *)
Theorem public_echo_classifies_public self w pre t source post :
  listener_ok w →
  inbox w = pre ++ (t, ClientReport source (public_message (identifier self))) :: post →
  Forall (λ te, (fst te < now w + 1)%Q ∧ snd te ≠ Cancel) pre →
  (t < now w + 1)%Q →
  fst (determine_connectivity self w) =
    Ok (mkConnectivity (AddrText (fst (remote_addr self) ++ ":" ++
                                   str_of_int (snd (remote_addr self)))%string)
          PUBLIC).
Proof.
  intros Hok Hin Hpre Ht.
  pose proof (test_public_echo self w pre t source post Hok Hin Hpre Ht) as Hpub.
  rewrite determine_connectivity_phases.
  destruct (test_public self w) as [o w1]. simpl in Hpub. by subst o.
Qed.

Lemma public_echo_classifies_public_witness :
  let w := example_world [((2 # 10)%Q, ClientReport example_peer "Are you public? abc123")] in
  listener_ok w ∧
  fst (determine_connectivity example_test w) =
    Ok (mkConnectivity (AddrText "10.0.0.5:6112") PUBLIC).
Proof.
  intros w.
  assert (Hok : listener_ok w) by (by right).
  split; [exact Hok|].
  refine (public_echo_classifies_public example_test w [] (2 # 10)%Q example_peer []
            Hok eq_refl (List.Forall_nil _) _).
  reflexivity.
Defined.

End PublicEcho.

(** * No matching packet *)

(** Names the way the suspension in the goal ends and the world it ends in,
    with what [suspend_keeps] says of them for the invariant [I]. *)
Ltac kept I allowed k w' Hkept Hstep Hall HI :=
  match goal with
  | |- context [suspend ?d ?p ?evs ?w0] =>
      pose proof (Hkept := suspend_keeps I allowed d p evs w0 Hstep Hall HI);
      destruct (suspend d p evs w0) as [k w']; simpl in Hkept
  end.

Section Unseen.
Implicit Types (w : World) (self : ConnectivityTest).

Lemma register_awaiting {P} m (a : Awaited P) :
  well_formed a → awaiting m (length (cells a)) (snd (register m a)).
Proof.
  intros Hwf. split; [apply register_lookup|]. split; [apply register_cell_new|].
  split; [|by apply register_well_formed].
  intros k Hk. rewrite register_lookup_ne by done. intros Hl. apply Hwf in Hl. lia.
Qed.

Lemma resolve_awaiting_ne {P} m fut k v (a : Awaited P) :
  k ≠ m → awaiting m fut a → awaiting m fut (resolve k v a).
Proof.
  intros Hne (Hm & Hc & Hother & Hwf).
  destruct (resolve_cases k v a) as [[-> _]|(fut' & Hk & Hc' & ->)]; [done|].
  assert (fut' ≠ fut) by (intros ->; by apply (Hother k)).
  split; [simpl; by rewrite lookup_delete_ne|].
  split; [simpl; by rewrite list_lookup_insert_ne|].
  split.
  - intros k' Hk'. simpl. intros Hl. apply lookup_delete_Some in Hl as [_ Hl].
    by apply (Hother k').
  - intros k' g. simpl. rewrite length_insert. intros Hl.
    apply lookup_delete_Some in Hl as [_ Hl]. by eapply Hwf.
Qed.

Lemma resolve_awaiting_eq {P} m fut v (a : Awaited P) :
  awaiting m fut a →
  cells (resolve m v a) !! fut = Some (FDone v) ∧ well_formed (resolve m v a).
Proof.
  intros (Hm & Hc & _ & Hwf). split; [|by apply resolve_well_formed].
  rewrite (resolve_hit _ _ _ fut) by done. simpl.
  apply list_lookup_insert_eq. by eapply lookup_lt_Some.
Qed.

Lemma awaiting_no_result {P} m fut (a : Awaited P) :
  awaiting m fut a → future_result fut a = None.
Proof. intros (_ & Hc & _). unfold future_result. by rewrite Hc. Qed.

Lemma deliver_connection_awaiting m fut e (h : NatHelper.t) :
  not_report m e → awaiting m fut h → awaiting m fut (deliver_connection e h).
Proof.
  intros He Haw. destruct e as [source message|source message|]; simpl; try done.
  apply resolve_awaiting_ne; [|done]. intros ->. by apply (He source).
Qed.

Lemma deliver_natserver_awaits m fut e s :
  not_datagram m e → listener_awaits m fut s →
  listener_awaits m fut (deliver_natserver e s).
Proof.
  intros He (s' & -> & Haw).
  destruct e as [source message|source message|]; simpl; try by exists s'.
  eexists. split; [done|]. apply resolve_awaiting_ne; [|done].
  intros ->. by apply (He source).
Qed.

Lemma deliver_natserver_sane e s :
  listener_sane s → listener_sane (deliver_natserver e s).
Proof.
  intros (s' & -> & Hwf).
  destruct e as [source message|source message|]; simpl; try by exists s'.
  eexists. split; [done|]. by apply resolve_well_formed.
Qed.

(** Without its echo the PUBLIC phase fails, and leaves the listener and
    the events to come as they should be for the STUN phase. *)
Lemma test_public_unseen self w :
  listener_ok w → sane w → Forall (λ te, unrelated self (snd te)) (inbox w) →
  ∃ w1, test_public self w = (Ok false, w1) ∧
        listener_sane (natserver w1) ∧
        Forall (λ te, unrelated self (snd te)) (inbox w1).
Proof.
  intros Hok [Hwfc Hwfs] Hall. unfold test_public.
  destruct (three_sends (remote_addr self) (public_message (identifier self)) w)
    as [(e & Hs & Hl & _)
       |(_ & w1 & Heq & _ & [s1 Hs1] & _ & Hnow & Hinbox & Hconn & Hsame & Hnew)].
  { destruct Hok as [[s Hs']|Hl']; congruence. }
  assert (Hsane1 : listener_sane (natserver w1)).
  { destruct (natserver w) as [s|] eqn:Hs.
    - exists s. split; [by apply Hsame|by apply Hwfs].
    - exists NatPacketServer.init. split; [by apply Hnew|].
      apply Awaited_init_well_formed. }
  unfold bind at 1. rewrite Heq. unfold try_except, bind.
  unfold wait_for_natpacket_task, NatHelper.wait_for_natpacket_begin.
  simpl. rewrite Hinbox.
  set (message := public_message (identifier self)).
  set (fut := length (cells (connection w1))).
  assert (Hstep : ∀ e h s,
            unrelated self e →
            awaiting message fut h ∧ listener_sane s →
            awaiting message fut (deliver_connection e h) ∧
            listener_sane (deliver_natserver e s)).
  { intros e h s [He _] [Haw Hsane]. split;
      [by apply deliver_connection_awaiting|by apply deliver_natserver_sane]. }
  kept (λ (h : NatHelper.t) (s : option NatPacketServer.t),
          awaiting message fut h ∧ listener_sane s)
       (unrelated self) k w2 Hkept Hstep Hall
       (conj (register_awaiting message (connection w1)
                ltac:(rewrite Hconn; exact Hwfc)) Hsane1).
  destruct Hkept as ([Haw Hsane2] & Hall2 & Hpoll).
  destruct k as [[r|u]| |]; simpl.
  - destruct (Hpoll _ eq_refl) as (w0 & Hp & Hc0 & _). exfalso.
    unfold NatHelper.wait_for_natpacket_end in Hp. rewrite Hc0 in Hp.
    destruct Haw as (_ & Hc & _). by rewrite Hc in Hp.
  - destruct (Hpoll _ eq_refl) as (w0 & Hp & Hc0 & _). exfalso.
    unfold NatHelper.wait_for_natpacket_end in Hp. rewrite Hc0 in Hp.
    destruct Haw as (_ & Hc & _). by rewrite Hc in Hp.
  - eexists. split; [reflexivity|]. by split.
  - eexists. split; [reflexivity|]. by split.
Qed.

(** A round that no datagram of its text reaches ends without an address,
    or is cancelled during the settle delay. *)
Lemma test_stun_round_unseen self message w :
  listener_sane (natserver w) →
  Forall (λ te, not_datagram message (snd te)) (inbox w) →
  ∃ r w',
    test_stun_round self message w = (r, w') ∧
    (r = Ok None ∨ r = Raise CancelledError) ∧
    listener_sane (natserver w') ∧
    Forall (λ te, not_datagram message (snd te)) (inbox w').
Proof.
  intros (s & Hs & Hwf) Hall.
  unfold test_stun_round, natserver_await_packet, send_gpgnet_message.
  unfold bind at 1. rewrite Hs. simpl. unfold bind at 1. unfold bind at 1.
  set (fut := length (cells s)).
  assert (Hstep : ∀ e (h : NatHelper.t) s,
            not_datagram message e →
            listener_awaits message fut s →
            listener_awaits message fut (deliver_natserver e s)).
  { intros e h s0. apply deliver_natserver_awaits. }
  assert (Haw : listener_awaits message fut (Some (snd (register message s)))).
  { eexists. split; [done|]. by apply register_awaiting. }
  unfold sleep. simpl.
  kept (λ (h : NatHelper.t) (s : option NatPacketServer.t),
          listener_awaits message fut s)
       (not_datagram message) k w2 Hkept Hstep Hall Haw.
  destruct Hkept as (Haw2 & Hall2 & _).
  assert (Hsane2 : listener_sane (natserver w2)).
  { destruct Haw2 as (s2 & Hs2 & Haw2). exists s2. split; [done|]. apply Haw2. }
  destruct k as [[]| |].
  3: { do 2 eexists. split; [reflexivity|]. split; [by right|]. by split. }
  all: unfold try_except, bind, wait_for_packet; simpl.
  all: kept (λ (h : NatHelper.t) (s : option NatPacketServer.t),
               listener_awaits message fut s)
            (not_datagram message) k3 w3 Hkept3 Hstep Hall2 Haw2.
  all: destruct Hkept3 as (Haw3 & Hall3 & Hpoll).
  all: assert (Hsane3 : listener_sane (cancel_future fut <$> natserver w3))
         by (destruct Haw3 as (s3 & -> & Haw3); eexists; split; [done|];
             apply cancel_future_well_formed, Haw3).
  all: destruct k3 as [r| |]; simpl;
         [|do 2 eexists; split; [reflexivity|]; split; [by left|]; by split..].
  all: destruct (Hpoll _ eq_refl) as (w0 & Hp & _ & Hs0); exfalso.
  all: rewrite Hs0 in Hp; destruct Haw3 as (s3 & Hs3 & Haw3); rewrite Hs3 in Hp.
  all: simpl in Hp; by rewrite (awaiting_no_result _ _ _ Haw3) in Hp.
Qed.

Lemma test_stun_loop_unseen self message n w :
  listener_sane (natserver w) →
  Forall (λ te, not_datagram message (snd te)) (inbox w) →
  fst (test_stun_loop self message n w) = Ok None ∨
  fst (test_stun_loop self message n w) = Raise CancelledError.
Proof.
  revert w. induction n as [|n IH]; intros w Hsane Hall; [by left|].
  rewrite test_stun_loop_step.
  destruct (test_stun_round_unseen self message w Hsane Hall)
    as (r & w' & -> & [-> | ->] & Hsane' & Hall'); [by apply IH|by right].
Qed.

(** C4: with an available listener and well-formed tables, when no report
    of the PUBLIC probe text and no datagram of the hello text ever
    arrives, [determine_connectivity] returns the state PROXY with no
    address, whether or not the run is cancelled on the way. *)
Theorem no_packet_classifies_proxy self w :
  listener_ok w → sane w →
  Forall (λ te, unrelated self (snd te)) (inbox w) →
  fst (determine_connectivity self w) = Ok (mkConnectivity AddrNone PROXY).
Proof.
  intros Hok Hsane Hall.
  destruct (test_public_unseen self w Hok Hsane Hall) as (w1 & Hpub & Hsane1 & Hall1).
  rewrite determine_connectivity_phases, Hpub. unfold test_stun.
  assert (Hall1' : Forall (λ te, not_datagram (stun_message (identifier self)) (snd te))
                     (inbox w1)).
  { eapply Forall_impl; [exact Hall1|]. by intros te [_ H]. }
  destruct (test_stun_loop_unseen self (stun_message (identifier self)) 3 w1
              Hsane1 Hall1') as [Hr|Hr];
    destruct (test_stun_loop self (stun_message (identifier self)) 3 w1) as [r w2];
    simpl in Hr; by subst r.
Qed.

Lemma no_packet_classifies_proxy_witness :
  let w := example_world [((3 # 10)%Q, Datagram example_source "Are you public? abc123");
                          ((15 # 10)%Q, ClientReport example_peer "Hello abc123")] in
  listener_ok w ∧
  fst (determine_connectivity example_test w) = Ok (mkConnectivity AddrNone PROXY).
Proof.
  intros w.
  assert (Hok : listener_ok w) by (by right).
  assert (Hsane : sane w).
  { split; [apply Awaited_init_well_formed|]. intros s Hs. discriminate Hs. }
  assert (Hall : Forall (λ te, unrelated example_test (snd te)) (inbox w)).
  { repeat constructor; intros source; discriminate. }
  split; [exact Hok|].
  exact (no_packet_classifies_proxy example_test w Hok Hsane Hall).
Defined.

End Unseen.

(** * The STUN phase sees its packet *)

Section Seen.
Implicit Types (w : World) (self : ConnectivityTest).
Variables (message : string) (fut : nat) (t : Q) (source : Address).
Variable post : list (Q * event).

Lemma deliver_natserver_has e s :
  listener_has message fut source s →
  listener_has message fut source (deliver_natserver e s).
Proof.
  intros (s' & -> & Hc & Hwf).
  destruct e as [source' message'|source' message'|]; simpl; try by exists s'.
  eexists. split; [done|]. split; [by apply resolve_settled|by apply resolve_well_formed].
Qed.

Lemma deliver_packet_has w t' :
  listener_awaits message fut (natserver w) →
  listener_has message fut source
    (natserver (deliver (Datagram source message) (set_now t' w))).
Proof.
  intros (s' & Hs & Haw). simpl. rewrite Hs. simpl.
  eexists. split; [done|]. by apply resolve_awaiting_eq.
Qed.

(** Up to a deadline that is not after the packet, nothing wakes the
    coroutine, and the packet is still to come. *)
Lemma suspend_before {R} d (poll : World → option R) pre w :
  (∀ w, listener_awaits message fut (natserver w) → poll w = None) →
  (d <= t)%Q →
  Forall (quiet message t) pre →
  listener_awaits message fut (natserver w) →
  ∃ w' pre',
    suspend d poll (pre ++ (t, Datagram source message) :: post) w = (Expired, w') ∧
    now w' = d ∧ listener_awaits message fut (natserver w') ∧
    inbox w' = pre' ++ (t, Datagram source message) :: post ∧
    Forall (quiet message t) pre'.
Proof.
  intros Hpoll Hd Hpre. revert w.
  induction Hpre as [|[t' e'] pre (Ht' & He' & Hc') Hpre IH]; intros w Haw; simpl;
    rewrite (Hpoll w Haw).
  - destruct (Qlt_le_dec t d) as [Hlt|_]; [lra|].
    exists (set_inbox ((t, Datagram source message) :: post) (set_now d w)), [].
    by repeat split.
  - destruct (Qlt_le_dec t' d) as [_|_].
    + assert (Haw' : listener_awaits message fut
                       (natserver (deliver e' (set_now t' w)))).
      { rewrite deliver_natserver_eq. by apply deliver_natserver_awaits. }
      destruct e' as [source' message'|source' message'|]; [by apply IH..|done].
    + eexists _, ((t', e') :: pre). split; [reflexivity|].
      repeat split; try done. by constructor.
Qed.

(** Once the packet is in, the rest of a settle delay leaves it there. *)
Lemma sleep_after d evs w :
  Forall (λ te, snd te ≠ Cancel) evs →
  listener_has message fut source (natserver w) →
  ∃ w', suspend d (λ _, @None unit) evs w = (Expired, w') ∧
        now w' = d ∧ listener_has message fut source (natserver w') ∧
        Forall (λ te, snd te ≠ Cancel) (inbox w').
Proof.
  revert w. induction evs as [|[t' e'] evs IH]; intros w Hall Hhas; simpl.
  - eexists. split; [reflexivity|]. by repeat split.
  - apply Forall_cons in Hall as [He' Hall]. simpl in He'.
    destruct (Qlt_le_dec t' d) as [_|_].
    + assert (Hhas' : listener_has message fut source
                        (natserver (deliver e' (set_now t' w)))).
      { rewrite deliver_natserver_eq. by apply deliver_natserver_has. }
      destruct e' as [source' message'|source' message'|]; [by apply IH..|done].
    + eexists. split; [reflexivity|]. repeat split; try done. by constructor.
Qed.

(** A settle delay that the packet falls into ends with the packet in. *)
Lemma sleep_through d pre w :
  (t < d)%Q →
  Forall (quiet message t) pre →
  Forall (λ te, snd te ≠ Cancel) post →
  listener_awaits message fut (natserver w) →
  ∃ w', suspend d (λ _, @None unit)
          (pre ++ (t, Datagram source message) :: post) w = (Expired, w') ∧
        now w' = d ∧ listener_has message fut source (natserver w') ∧
        Forall (λ te, snd te ≠ Cancel) (inbox w').
Proof.
  intros Hd Hpre Hpost. revert w.
  induction Hpre as [|[t' e'] pre (Ht' & He' & Hc') Hpre IH]; intros w Haw; simpl.
  - destruct (Qlt_le_dec t d) as [_|Hle]; [|lra].
    apply sleep_after; [done|]. by apply deliver_packet_has.
  - simpl in Ht'. destruct (Qlt_le_dec t' d) as [_|Hle]; [|lra].
    assert (Haw' : listener_awaits message fut
                     (natserver (deliver e' (set_now t' w)))).
    { rewrite deliver_natserver_eq. by apply deliver_natserver_awaits. }
    destruct e' as [source' message'|source' message'|]; [by apply IH..|done].
Qed.

(** A wait that the packet falls into is woken with the packet. *)
Lemma wait_reaches d pre w :
  (t < d)%Q →
  Forall (quiet message t) pre →
  listener_awaits message fut (natserver w) →
  ∃ w', suspend d (λ w, s ← natserver w; future_result fut s)
          (pre ++ (t, Datagram source message) :: post) w
        = (Completed (message, source), w').
Proof.
  intros Hd Hpre. revert w.
  assert (Hnone : ∀ w, listener_awaits message fut (natserver w) →
                       (s ← natserver w; future_result fut s) = None).
  { intros w (s & -> & Haw). simpl. by eapply awaiting_no_result. }
  induction Hpre as [|[t' e'] pre (Ht' & He' & Hc') Hpre IH]; intros w Haw; simpl;
    rewrite (Hnone w Haw).
  - destruct (Qlt_le_dec t d) as [_|Hle]; [|lra].
    eexists. apply suspend_ready.
    destruct (deliver_packet_has w t Haw) as (s' & Hs' & Hc & _).
    simpl in Hs' |- *. rewrite Hs'. simpl. unfold future_result. by rewrite Hc.
  - simpl in Ht'. destruct (Qlt_le_dec t' d) as [_|Hle]; [|lra].
    assert (Haw' : listener_awaits message fut
                     (natserver (deliver e' (set_now t' w)))).
    { rewrite deliver_natserver_eq. by apply deliver_natserver_awaits. }
    destruct e' as [source' message'|source' message'|]; [by apply IH..|done].
Qed.

End Seen.

Section SeenRounds.
Implicit Types (w : World) (self : ConnectivityTest).

(** A round of [test_stun] as its two suspensions. *)
Lemma test_stun_round_eq self message w s :
  natserver w = Some s →
  test_stun_round self message w =
    match suspend (now w + (1 # 10)) (λ _, @None unit) (inbox w)
            (did (DidSleep (1 # 10))
               (did (gpgnet_request (config w) message)
                  (set_natserver (Some (snd (register message s))) w))) with
    | (Interrupted, w2) => (Raise CancelledError, w2)
    | (_, w2) =>
        match suspend (now w2 + (5 # 10))
                (λ w, s' ← natserver w; future_result (length (cells s)) s')
                (inbox w2) (did (DidWaitFor (5 # 10)) w2) with
        | (Completed (received, address), w3) =>
            if String.eqb received message then (Ok (Some address), w3)
            else (Ok None, w3)
        | (_, w3) =>
            (Ok None,
             set_natserver (cancel_future (length (cells s)) <$> natserver w3) w3)
        end
    end.
Proof.
  intros Hs.
  unfold test_stun_round, natserver_await_packet, send_gpgnet_message.
  unfold bind at 1. rewrite Hs. simpl. unfold bind at 1. unfold bind at 1.
  unfold sleep. simpl.
  destruct (suspend _ _ _ _) as [[[]| |] w2]; try reflexivity.
  all: unfold try_except, bind, wait_for_packet; simpl.
  all: destruct (suspend _ _ _ _) as [[[received address]| |] w3]; simpl;
         try reflexivity.
  all: by destruct (String.eqb received message).
Qed.

(** A round and the first datagram of its text: the round returns the
    source of the datagram when the datagram comes before the deadline of
    the round, and otherwise ends at its deadline with the datagram still
    to come. *)
Lemma test_stun_round_seen self message w pre t source post :
  listener_sane (natserver w) →
  inbox w = pre ++ (t, Datagram source message) :: post →
  Forall (quiet message t) pre →
  Forall (λ te, snd te ≠ Cancel) post →
  ((t < now w + (1 # 10) + (5 # 10))%Q →
   fst (test_stun_round self message w) = Ok (Some source)) ∧
  ((now w + (1 # 10) + (5 # 10) <= t)%Q →
   ∃ w' pre',
     test_stun_round self message w = (Ok None, w') ∧
     now w' = (now w + (1 # 10) + (5 # 10))%Q ∧
     listener_sane (natserver w') ∧
     inbox w' = pre' ++ (t, Datagram source message) :: post ∧
     Forall (quiet message t) pre').
Proof.
  intros (s & Hs & Hwf) Hin Hpre Hpost.
  rewrite (test_stun_round_eq self message w s Hs), Hin.
  set (fut := length (cells s)).
  set (w1 := did (DidSleep (1 # 10)) _).
  assert (Haw : listener_awaits message fut (natserver w1)).
  { eexists. split; [done|]. by apply register_awaiting. }
  destruct (Qlt_le_dec t (now w + (1 # 10))) as [Hearly|Hlate].
  - (* the datagram arrives during the settle delay *)
    destruct (sleep_through message fut t source post (now w + (1 # 10))%Q pre w1
                Hearly Hpre Hpost Haw)
      as (w2 & Hsleep & Hnow2 & (s2 & Hs2 & Hc2 & _) & _).
    rewrite Hsleep. split; [|intros Hle; lra]. intros _.
    rewrite (suspend_ready _ _ _ _ (message, source)).
    + by rewrite String.eqb_refl.
    + simpl. rewrite Hs2. simpl. unfold future_result. by rewrite Hc2.
  - (* the settle delay ends before the datagram *)
    destruct (suspend_before message fut t source post (now w + (1 # 10))%Q
                (λ _, @None unit) pre w1)
      as (w2 & pre2 & Hsleep & Hnow2 & Haw2 & Hin2 & Hpre2); [done..|].
    rewrite Hsleep, Hnow2, Hin2. split.
    + intros Hlt.
      destruct (wait_reaches message fut t source post
                  (now w + (1 # 10) + (5 # 10))%Q pre2
                  (did (DidWaitFor (5 # 10)) w2) Hlt Hpre2 Haw2) as (w3 & Hwait).
      rewrite Hwait. by rewrite String.eqb_refl.
    + intros Hle.
      destruct (suspend_before message fut t source post
                  (now w + (1 # 10) + (5 # 10))%Q
                  (λ w, s ← natserver w; future_result fut s) pre2
                  (did (DidWaitFor (5 # 10)) w2))
        as (w3 & pre3 & Hwait & Hnow3 & (s3 & Hs3 & Haw3) & Hin3 & Hpre3);
        [|exact Hle|exact Hpre2|exact Haw2|].
      { intros w0 (s0 & -> & Haw0). simpl. by eapply awaiting_no_result. }
      rewrite Hwait. eexists _, pre3. split; [reflexivity|]. simpl.
      rewrite Hs3. simpl. repeat split; try done.
      eexists. split; [done|]. apply cancel_future_well_formed, Haw3.
Qed.

(** C3: when the PUBLIC phase has failed and, in the STUN phase, the first
    datagram whose text is exactly the hello message arrives before the
    deadline of one of the three rounds, that is less than 3 x (0.1 + 0.5)
    time units after the phase began (the events before it being no later,
    and the run not being cancelled), [determine_connectivity] returns the
    state STUN with the address the datagram came from, whatever address
    was dialed. *)
Theorem stun_packet_classifies_stun self w w1 pre t source post :
  test_public self w = (Ok false, w1) →
  (∀ s, natserver w1 = Some s → well_formed s) →
  inbox w1 = pre ++ (t, Datagram source (stun_message (identifier self))) :: post →
  Forall (λ te, (fst te <= t)%Q ∧
                not_datagram (stun_message (identifier self)) (snd te)) pre →
  Forall (λ te, snd te ≠ Cancel) (inbox w1) →
  (t < now w1 + (18 # 10))%Q →
  fst (determine_connectivity self w) = Ok (mkConnectivity (AddrWire source) STUN).
Proof.
  intros Hpub Hwf Hin Hpre Hnc Ht.
  set (message := stun_message (identifier self)) in *.
  assert (Hsane : listener_sane (natserver w1)).
  { destruct (test_public_cases self w)
      as [(e & _ & _ & Hfst & _)|(_ & b & c & w' & Heq & _ & _ & [s Hs] & _)].
    - rewrite Hpub in Hfst. discriminate.
    - rewrite Hpub in Heq. injection Heq as _ <-. exists s. split; [done|auto]. }
  rewrite Hin in Hnc. apply Forall_app in Hnc as [Hnc_pre Hnc_post].
  apply Forall_cons in Hnc_post as [_ Hpost].
  assert (Hquiet : Forall (quiet message t) pre).
  { apply Forall_and in Hpre as [Htime Hnot]. unfold quiet.
    rewrite !Forall_and. by repeat split. }
  assert (Hloop : fst (test_stun_loop self message 3 w1) = Ok (Some source)).
  { (* first round *)
    rewrite test_stun_loop_step.
    destruct (test_stun_round_seen self message w1 pre t source post
                Hsane Hin Hquiet Hpost) as [Hseen Hunseen].
    destruct (Qlt_le_dec t (now w1 + (1 # 10) + (5 # 10))) as [Hlt|Hle].
    { specialize (Hseen Hlt).
      destruct (test_stun_round self message w1) as [r w2].
      simpl in Hseen. by subst r. }
    destruct (Hunseen Hle) as (w2 & pre2 & -> & Hnow2 & Hsane2 & Hin2 & Hquiet2).
    (* second round *)
    rewrite test_stun_loop_step.
    destruct (test_stun_round_seen self message w2 pre2 t source post
                Hsane2 Hin2 Hquiet2 Hpost) as [Hseen2 Hunseen2].
    destruct (Qlt_le_dec t (now w2 + (1 # 10) + (5 # 10))) as [Hlt2|Hle2].
    { specialize (Hseen2 Hlt2).
      destruct (test_stun_round self message w2) as [r w3].
      simpl in Hseen2. by subst r. }
    destruct (Hunseen2 Hle2) as (w3 & pre3 & -> & Hnow3 & Hsane3 & Hin3 & Hquiet3).
    (* third round *)
    rewrite test_stun_loop_step.
    destruct (test_stun_round_seen self message w3 pre3 t source post
                Hsane3 Hin3 Hquiet3 Hpost) as [Hseen3 _].
    assert (Hlt3 : (t < now w3 + (1 # 10) + (5 # 10))%Q).
    { rewrite Hnow3, Hnow2. lra. }
    specialize (Hseen3 Hlt3).
    destruct (test_stun_round self message w3) as [r w4].
    simpl in Hseen3. by subst r. }
  rewrite determine_connectivity_phases, Hpub. unfold test_stun. fold message.
  destruct (test_stun_loop self message 3 w1) as [r w2].
  simpl in Hloop. by subst r.
Qed.

Lemma stun_packet_classifies_stun_witness :
  let w := example_world [((19 # 10)%Q, Datagram example_source "Hello abc123")] in
  test_public example_test w = (Ok false, snd (test_public example_test w)) ∧
  fst (determine_connectivity example_test w) =
    Ok (mkConnectivity (AddrWire ("203.0.113.9", 51000%Z)) STUN).
Proof.
  intros w.
  assert (Hpub : test_public example_test w = (Ok false, snd (test_public example_test w)))
    by (vm_compute; reflexivity).
  assert (Hin : inbox (snd (test_public example_test w)) =
                [] ++ ((19 # 10)%Q, Datagram example_source
                                      (stun_message (identifier example_test))) :: [])
    by (vm_compute; reflexivity).
  assert (Hwf : ∀ s, natserver (snd (test_public example_test w)) = Some s →
                     well_formed s).
  { intros s Hs. vm_compute in Hs. injection Hs as <-. intros k fut Hk.
    vm_compute in Hk. discriminate Hk. }
  assert (Hnc : Forall (λ te : Q * event, snd te ≠ Cancel)
                  (inbox (snd (test_public example_test w)))).
  { rewrite Hin. repeat constructor. discriminate. }
  assert (Hnow : now (snd (test_public example_test w)) = 1%Q)
    by (vm_compute; reflexivity).
  assert (Ht : ((19 # 10) < now (snd (test_public example_test w)) + (18 # 10))%Q)
    by (rewrite Hnow; reflexivity).
  split; [exact Hpub|].
  exact (stun_packet_classifies_stun example_test w _ [] (19 # 10)%Q example_source []
           Hpub Hwf Hin (List.Forall_nil _) Hnc Ht).
Defined.

End SeenRounds.

(** * The texts of the probes *)

Section ProbeTexts.
Implicit Types (w : World) (self : ConnectivityTest).

Lemma stun_run_effects c message n tr r e :
  stun_run c message n tr r → In e tr →
  e = gpgnet_request c message ∨ e = DidSleep (1 # 10) ∨
  e = DidWaitFor (5 # 10) ∨ e = GotCancelled.
Proof.
  induction 1 as [| | |n tr r _ IH|n tr r _ IH]; simpl; intros Hin;
    intuition (subst; auto).
Qed.

(** C5, as the code has it: the text of the PUBLIC test is the identifier
    after the words "Are you public? ", the text of the STUN test is the
    identifier after the word "Hello ", and these are the texts a run
    uses: every datagram it sends goes to the dialed address with the first
    text, and every request it makes over the connection is a SendNatPacket
    for the lobby address with the second text. *)
Theorem probe_messages self w :
  public_message (identifier self) = ("Are you public? " ++ identifier self)%string ∧
  stun_message (identifier self) = ("Hello " ++ identifier self)%string ∧
  ∀ e,
    In e (drop (length (effects w)) (effects (snd (determine_connectivity self w)))) →
    match e with
    | DidSend target text =>
        target = remote_addr self ∧
        text = ("Are you public? " ++ identifier self)%string
    | DidGpgnet command args =>
        command = "SendNatPacket"%string ∧
        args = [lobby_address (config w); ("Hello " ++ identifier self)%string]
    | _ => True
    end.
Proof.
  split; [done|]. split; [done|]. intros e.
  destruct (determine_connectivity_run self w)
    as [(x & _ & _ & Heff & _)|(_ & cancelled & tr & Heff & Hshape)];
    rewrite Heff, drop_app_length.
  - intros [<-|[]]. done.
  - intros Hin. apply in_app_or in Hin as [Hin|Hin].
    + unfold public_run in Hin.
      destruct (listener_started w), cancelled; simpl in Hin;
        intuition (subst; auto).
    + destruct Hshape as [(-> & _)|(r & Hrun & _)]; [done|].
      destruct (stun_run_effects _ _ _ _ _ _ Hrun Hin) as [-> | [-> | [-> | ->]]]; done.
Qed.

Lemma probe_messages_witness :
  let w := example_world [] in
  In (DidSend example_peer "Are you public? abc123")
     (drop (length (effects w))
        (effects (snd (determine_connectivity example_test w)))) ∧
  example_peer = remote_addr example_test.
Proof.
  intros w.
  assert (Hin : In (DidSend example_peer "Are you public? abc123")
                  (drop (length (effects w))
                     (effects (snd (determine_connectivity example_test w))))).
  { vm_compute. tauto. }
  split; [exact Hin|].
  exact (proj1 (proj2 (proj2 (probe_messages example_test w)) _ Hin)).
Defined.

(** C5, as the claim has it, fails: for the identifier "abc123" neither text
    begins with a tag and a colon. *)
Lemma probe_messages_not_tagged :
  public_message "abc123" ≠ ("public-probe:" ++ "abc123")%string ∧
  stun_message "abc123" ≠ ("hello:" ++ "abc123")%string.
Proof. split; discriminate. Qed.

End ProbeTexts.

(** * Texts: states, addresses, commands and probes *)

Section Texts.

(** The values of the three members of [ConnectivityState] are pairwise
    distinct, as the decorator [unique] demands of the class. *)
Theorem ConnectivityState_unique (s s' : ConnectivityState) :
  ConnectivityState_value s = ConnectivityState_value s' → s = s'.
Proof. destruct s, s'; simpl; intros H; try reflexivity; discriminate H. Qed.

Lemma ConnectivityState_unique_witness :
  ConnectivityState_value STUN = "STUN"%string ∧ STUN = STUN.
Proof.
  split; [reflexivity|].
  exact (ConnectivityState_unique STUN STUN eq_refl).
Defined.

Lemma only_app ok (p q : string) :
  only ok (p ++ q)%string = only ok p && only ok q.
Proof.
  induction p as [|c p IH]; simpl; [done|]. by rewrite IH, andb_assoc.
Qed.

Lemma string_of_uint_digits d :
  only digit_or_minus (NilEmpty.string_of_uint d) = true.
Proof. induction d; simpl; done. Qed.

(** The text of an integer holds digits and at most a leading minus sign. *)
Lemma str_of_int_digits n : only digit_or_minus (str_of_int n) = true.
Proof.
  unfold str_of_int, NilZero.string_of_int, NilZero.string_of_uint.
  destruct (Z.to_int n) as [d|d]; destruct d; simpl;
    try done; apply string_of_uint_digits.
Qed.

Lemma str_of_int_no_colon n (p q : string) :
  str_of_int n ≠ (p ++ ":" ++ q)%string.
Proof.
  intros Heq. pose proof (str_of_int_digits n) as Hd.
  rewrite Heq, only_app in Hd. simpl in Hd.
  by rewrite andb_false_r in Hd.
Qed.

(** The text of an integer determines the integer. *)
Lemma str_of_int_inj n n' : str_of_int n = str_of_int n' → n = n'.
Proof.
  assert (Hnil : ∀ z, Z.to_int z ≠ Decimal.Pos Decimal.Nil ∧
                      Z.to_int z ≠ Decimal.Neg Decimal.Nil).
  { intros [|p|p]; simpl; split; try discriminate;
      intros [= H]; by apply DecimalPos.Unsigned.to_uint_nonnil in H. }
  unfold str_of_int. intros Heq.
  apply DecimalZ.to_int_inj.
  destruct (Hnil n) as [Hp Hn], (Hnil n') as [Hp' Hn'].
  pose proof (NilZero.isi _ Hp Hn) as H1.
  pose proof (NilZero.isi _ Hp' Hn') as H2.
  rewrite Heq in H1. congruence.
Qed.

(** A text that ends in a colon and a colon-free rest splits in one way. *)
Lemma split_at_last_colon (h h' d d' : string) :
  (∀ p q, d ≠ (p ++ ":" ++ q)%string) →
  (∀ p q, d' ≠ (p ++ ":" ++ q)%string) →
  (h ++ ":" ++ d)%string = (h' ++ ":" ++ d')%string →
  h = h' ∧ d = d'.
Proof.
  intros Hd Hd'. revert h'.
  induction h as [|c h IH]; intros [|c' h']; simpl; intros Heq.
  - injection Heq as Heq. by subst.
  - injection Heq as Hc Heq. by destruct (Hd h' d').
  - injection Heq as Hc Heq. by destruct (Hd' h d).
  - injection Heq as Hc Heq. destruct (IH h' Heq) as [Hh Hdd]. by subst.
Qed.

(** The text host:port determines the address, whatever the host is (a host
    may itself hold colons): the text of the port holds none, so the last
    colon is the separator. *)
Theorem format_address_inj (a a' : Address) :
  format_address a = format_address a' → a = a'.
Proof.
  destruct a as [h p], a' as [h' p']. unfold format_address. simpl. intros Heq.
  destruct (split_at_last_colon h h' (str_of_int p) (str_of_int p')) as [-> Hp];
    [apply str_of_int_no_colon..|exact Heq|].
  by rewrite (str_of_int_inj _ _ Hp).
Qed.

Lemma format_address_inj_witness :
  format_address ("::1", 6112%Z) = "::1:6112"%string ∧
  ("::1", 6112%Z) = ("::1", 6112%Z).
Proof.
  split; [reflexivity|].
  exact (format_address_inj ("::1", 6112%Z) ("::1", 6112%Z) eq_refl).
Defined.

(** The command of [send_nat_packet] determines the address and the message
    it was built from. *)
Theorem send_nat_packet_inj (a a' : Address) (m m' : string) :
  NatHelper.send_nat_packet a m = NatHelper.send_nat_packet a' m' →
  a = a' ∧ m = m'.
Proof.
  unfold NatHelper.send_nat_packet. intros [= Ha Hm].
  split; [by apply format_address_inj|done].
Qed.

Lemma send_nat_packet_inj_witness :
  NatHelper.send_nat_packet example_peer "Hello abc123" =
    ("SendNatPacket", "connectivity", ["10.0.0.5:6112"; "Hello abc123"])%string ∧
  example_peer = example_peer.
Proof.
  split; [reflexivity|].
  exact (proj1 (send_nat_packet_inj example_peer example_peer
                  "Hello abc123" "Hello abc123" eq_refl)).
Defined.

(** The probe texts do not collide: each determines the identifier it was
    built from, and no PUBLIC text is a STUN text. *)
Theorem probe_texts_distinct (identifier identifier' : string) :
  (public_message identifier = public_message identifier' → identifier = identifier') ∧
  (stun_message identifier = stun_message identifier' → identifier = identifier') ∧
  public_message identifier ≠ stun_message identifier'.
Proof.
  unfold public_message, stun_message. simpl.
  repeat split; [intros H; by simplify_eq/=..|discriminate].
Qed.

Lemma probe_texts_distinct_witness :
  public_message "abc123" = public_message "abc123" ∧ "abc123"%string = "abc123"%string.
Proof.
  split; [reflexivity|].
  exact (proj1 (probe_texts_distinct "abc123" "abc123") eq_refl).
Defined.

End Texts.

(** * NatHelper: what a waiter can get, and how calls combine *)

Section Waiters.
Import NatHelper.
Implicit Types (h : NatHelper.t) (message : string) (fut : nat).

Lemma register_owned {P} (text : P → string) m (a : Awaited P) :
  well_formed a → owned m (length (cells a)) text (snd (register m a)).
Proof.
  intros Hwf. left. split; [apply register_cell_new|].
  intros k. destruct (decide (m = k)) as [->|Hne]; [done|].
  rewrite register_lookup_ne by done. intros Hk. apply Hwf in Hk. lia.
Qed.

Lemma register_keeps_owned {P} (text : P → string) m fut k (a : Awaited P) :
  owned m fut text a → owned m fut text (snd (register k a)).
Proof.
  intros [[Hc Hkeys]|(v & Hc & Hv)].
  - left. assert (fut < length (cells a)) by (by eapply lookup_lt_Some).
    split; [by rewrite register_cell_old|].
    intros k'. destruct (decide (k = k')) as [->|Hne].
    + rewrite register_lookup. intros [= Heq]. lia.
    + rewrite register_lookup_ne by done. apply Hkeys.
  - right. exists v. split; [|done].
    rewrite register_cell_old; [done|by eapply lookup_lt_Some].
Qed.

Lemma resolve_keeps_owned {P} (text : P → string) m fut k v (a : Awaited P) :
  text v = k → owned m fut text a → owned m fut text (resolve k v a).
Proof.
  intros Hv [[Hc Hkeys]|(v' & Hc & Hv')].
  - destruct (resolve_cases k v a) as [[-> _]|(fut' & Hk & Hc' & ->)]; [by left|].
    destruct (decide (fut' = fut)) as [->|Hne].
    + right. exists v. simpl. split.
      * apply list_lookup_insert_eq. by eapply lookup_lt_Some.
      * rewrite Hv. by apply Hkeys.
    + left. simpl. split; [by rewrite list_lookup_insert_ne|].
      intros k' Hk'. apply lookup_delete_Some in Hk' as [_ Hk']. by apply Hkeys.
  - right. exists v'. split; [by apply resolve_settled|done].
Qed.

Lemma apply_calls_owned cs h message fut :
  owned message fut snd h → owned message fut snd (apply_calls cs h).
Proof.
  revert h. induction cs as [|c cs IH]; intros h Hown; [done|].
  simpl. apply IH. destruct c as [k|a k]; simpl.
  - by apply register_keeps_owned.
  - by apply resolve_keeps_owned.
Qed.

(** Whatever registrations and packets follow a registration for [message],
    the coroutine of [wait_for_natpacket] either still waits or returns; it
    never returns [False] and never sees its future cancelled; a pair it
    returns has a source the sender constraint accepts and the text
    [message]; it returns [None] only under a sender constraint. *)
Theorem wait_for_natpacket_outcomes h message sender calls :
  well_formed h →
  let fut := fst (wait_for_natpacket_begin message h) in
  let h' := apply_calls calls (snd (wait_for_natpacket_begin message h)) in
  wait_for_natpacket_end message sender fut h' = None ∨
  (∃ source, wait_for_natpacket_end message sender fut h'
               = Some (inl (RetPair source message)) ∧
             sender_accepts source sender = true) ∨
  (∃ source other, wait_for_natpacket_end message sender fut h' = Some (inl RetNone) ∧
                   sender = Some other ∧ source ≠ other ∧
                   cells h' !! fut = Some (FDone (source, message))).
Proof.
  intros Hwf fut h'.
  assert (Hown : owned message fut snd h').
  { apply apply_calls_owned. by apply register_owned. }
  unfold wait_for_natpacket_end.
  destruct Hown as [[Hc _]|([source text] & Hc & Htext)]; rewrite Hc; [by left|].
  simpl in Htext. subst text. right. simpl. rewrite String.eqb_refl, andb_true_r.
  destruct (sender_accepts source sender) eqn:Hacc.
  - left. by exists source.
  - right. destruct sender as [other|]; [|done]. exists source, other.
    repeat split. simpl in Hacc. by apply bool_decide_eq_false_1 in Hacc.
Qed.

Lemma wait_for_natpacket_outcomes_witness :
  well_formed (@Awaited_init (Address * string)) ∧
  ∃ source,
    wait_for_natpacket_end "Hello abc123" None 0
      (apply_calls [CallProcess example_source "Hello abc123";
                    CallProcess example_peer "Hello abc123"]
         (snd (wait_for_natpacket_begin "Hello abc123" Awaited_init)))
    = Some (inl (RetPair source "Hello abc123")).
Proof.
  split; [apply Awaited_init_well_formed|].
  destruct (wait_for_natpacket_outcomes Awaited_init "Hello abc123" None
              [CallProcess example_source "Hello abc123";
               CallProcess example_peer "Hello abc123"]
              Awaited_init_well_formed)
    as [Hnone|[(source & Hpair & _)|(source & other & _ & Hsender & _)]].
  - vm_compute in Hnone. discriminate Hnone.
  - by exists source.
  - discriminate Hsender.
Defined.

Lemma register_awaiting_ne {P} m fut k (a : Awaited P) :
  k ≠ m → awaiting m fut a → awaiting m fut (snd (register k a)).
Proof.
  intros Hne (Hm & Hc & Hother & Hwf).
  assert (fut < length (cells a)) by (by eapply lookup_lt_Some).
  split; [by rewrite register_lookup_ne|].
  split; [by rewrite register_cell_old|].
  split; [|by apply register_well_formed].
  intros k' Hk'. destruct (decide (k = k')) as [<-|Hkk].
  - rewrite register_lookup. intros [= Heq]. lia.
  - rewrite register_lookup_ne by done. by apply Hother.
Qed.

Lemma apply_calls_awaiting cs h message fut :
  Forall (λ c, call_text c ≠ message) cs →
  awaiting message fut h → awaiting message fut (apply_calls cs h).
Proof.
  intros Hcs. revert h.
  induction Hcs as [|c cs Hc Hcs IH]; intros h Haw; [done|].
  simpl. apply IH. destruct c as [k|a k]; simpl in *.
  - by apply register_awaiting_ne.
  - by apply resolve_awaiting_ne.
Qed.

(** Registering for [message], then any calls about other texts, then a
    packet with the text [message]: the waiter gets exactly the source of
    that packet and the text, when its sender constraint accepts the source;
    calls about other texts do not disturb the wait. *)
Theorem wait_for_natpacket_delivers h message sender source calls :
  well_formed h →
  Forall (λ c, call_text c ≠ message) calls →
  sender_accepts source sender = true →
  let fut := fst (wait_for_natpacket_begin message h) in
  let h1 := apply_calls calls (snd (wait_for_natpacket_begin message h)) in
  wait_for_natpacket_end message sender fut h1 = None ∧
  wait_for_natpacket_end message sender fut (process_nat_packet source message h1)
    = Some (inl (RetPair source message)).
Proof.
  intros Hwf Hcalls Hacc fut h1.
  assert (Haw : awaiting message fut h1).
  { apply apply_calls_awaiting; [done|]. by apply register_awaiting. }
  split.
  - unfold wait_for_natpacket_end. destruct Haw as (_ & Hc & _). by rewrite Hc.
  - unfold wait_for_natpacket_end, process_nat_packet.
    destruct (resolve_awaiting_eq message fut (source, message) h1 Haw) as [Hc _].
    rewrite Hc. simpl. by rewrite Hacc, String.eqb_refl.
Qed.

Lemma wait_for_natpacket_delivers_witness :
  well_formed (@Awaited_init (Address * string)) ∧
  wait_for_natpacket_end "Hello abc123" (Some example_source) 0
    (process_nat_packet example_source "Hello abc123"
       (apply_calls [CallWait "Hello xyz"; CallProcess example_peer "Hello xyz"]
          (snd (wait_for_natpacket_begin "Hello abc123" Awaited_init))))
  = Some (inl (RetPair example_source "Hello abc123")).
Proof.
  split; [apply Awaited_init_well_formed|].
  refine (proj2 (wait_for_natpacket_delivers Awaited_init "Hello abc123"
                   (Some example_source) example_source
                   [CallWait "Hello xyz"; CallProcess example_peer "Hello xyz"]
                   Awaited_init_well_formed _ _)).
  - repeat constructor; discriminate.
  - reflexivity.
Defined.

(** [nat_packets] has at most one entry per registration made. *)
Theorem nat_packets_size_bound (calls : list call) h :
  (size (nat_packets (apply_calls calls h)) ≤ size (nat_packets h) + count_waits calls)%nat.
Proof.
  revert h. induction calls as [|c calls IH]; intros h; simpl.
  - unfold count_waits. simpl. lia.
  - etrans; [apply IH|]. unfold count_waits.
    destruct c as [k|a k]; simpl.
    + rewrite map_size_insert. destruct (nat_packets h !! k); unfold id; lia.
    + unfold process_nat_packet.
      destruct (resolve_cases k (a, k) h) as [[-> _]|(fut & Hk & _ & ->)]; [lia|].
      simpl. rewrite map_size_delete, Hk. unfold id. lia.
Qed.

Lemma resolve_not_pending {P} m v (a : Awaited P) fut :
  nat_packets a !! m = Some fut → cells a !! fut ≠ Some FPending → resolve m v a = a.
Proof.
  intros Hm Hc. destruct (resolve_cases m v a) as [[-> _]|(fut' & Hm' & Hc' & _)]; [done|].
  congruence.
Qed.

(** A packet that resolves nothing still resolves nothing after a packet of
    another text has been processed. *)
Lemma resolve_idle_after {P} m1 v1 m2 v2 (a : Awaited P) :
  stored_once a → m1 ≠ m2 → resolve m2 v2 a = a →
  resolve m2 v2 (resolve m1 v1 a) = resolve m1 v1 a.
Proof.
  intros Hone Hne Hidle.
  destruct (resolve_cases m1 v1 a) as [[-> _]|(f1 & Hm1 & Hc1 & ->)]; [done|].
  destruct (nat_packets a !! m2) as [f2|] eqn:Hm2.
  - apply (resolve_not_pending _ _ _ f2); simpl.
    + by rewrite lookup_delete_ne.
    + assert (f1 ≠ f2) by (intros ->; apply Hne; eapply Hone; eauto).
      rewrite list_lookup_insert_ne by done. intros Hc2.
      rewrite (resolve_hit _ _ _ f2) in Hidle by done.
      apply (f_equal nat_packets) in Hidle. simpl in Hidle.
      apply (f_equal (λ t, t !! m2)) in Hidle.
      rewrite lookup_delete_eq, Hm2 in Hidle. discriminate.
  - apply resolve_absent. simpl. by rewrite lookup_delete_ne.
Qed.

Lemma resolve_commute {P} m1 v1 m2 v2 (a : Awaited P) :
  stored_once a → m1 ≠ m2 →
  resolve m1 v1 (resolve m2 v2 a) = resolve m2 v2 (resolve m1 v1 a).
Proof.
  intros Hone Hne.
  destruct (resolve_cases m1 v1 a) as [[Hidle1 _]|(f1 & Hm1 & Hc1 & Heq1)].
  { rewrite Hidle1. apply resolve_idle_after; [done|by apply not_eq_sym|done]. }
  destruct (resolve_cases m2 v2 a) as [[Hidle2 _]|(f2 & Hm2 & Hc2 & Heq2)].
  { rewrite Hidle2. symmetry. by apply resolve_idle_after. }
  assert (f1 ≠ f2) by (intros ->; apply Hne; eapply Hone; eauto).
  rewrite Heq1, Heq2.
  rewrite (resolve_hit _ _ _ f1); simpl;
    [|by rewrite lookup_delete_ne|by rewrite list_lookup_insert_ne].
  rewrite (resolve_hit _ _ _ f2); simpl;
    [|by rewrite lookup_delete_ne|by rewrite list_lookup_insert_ne].
  f_equal; [apply delete_delete|by apply list_insert_insert_ne].
Qed.

(** Packets with different texts can be processed in either order: the table
    and the futures end up the same. *)
Theorem process_nat_packet_commute h (a1 a2 : Address) (m1 m2 : string) :
  stored_once h → m1 ≠ m2 →
  process_nat_packet a1 m1 (process_nat_packet a2 m2 h) =
  process_nat_packet a2 m2 (process_nat_packet a1 m1 h).
Proof. intros Hone Hne. unfold process_nat_packet. by apply resolve_commute. Qed.

Lemma process_nat_packet_commute_witness :
  let h : NatHelper.t :=
    apply_calls [CallWait "Hello abc123"; CallWait "Hello xyz"] Awaited_init in
  stored_once h ∧
  process_nat_packet example_peer "Hello abc123"
    (process_nat_packet example_source "Hello xyz" h) =
  process_nat_packet example_source "Hello xyz"
    (process_nat_packet example_peer "Hello abc123" h).
Proof.
  intros h.
  assert (Hone : stored_once h).
  { apply (apply_calls_invariant [CallWait "Hello abc123"; CallWait "Hello xyz"]).
    split; intros k; intros; simpl in *; by rewrite lookup_empty in *. }
  split; [exact Hone|].
  refine (process_nat_packet_commute h example_peer example_source
            "Hello abc123" "Hello xyz" Hone _).
  discriminate.
Defined.

End Waiters.

(** * The listener global and the ways a run ends *)

Section Endings.
Implicit Types (w : World) (self : ConnectivityTest).

(** [send_natpacket] assigns the global before it awaits [listen]: whatever
    the first call does, the listener is installed afterwards and the next
    call sends at once, without starting it again; when [listen] raises in
    the first call, that call raises the same and sends nothing. *)
Theorem send_natpacket_installs_listener (a1 a2 : Address) (m1 m2 : string) w :
  is_Some (natserver (snd (send_natpacket a1 m1 w))) ∧
  send_natpacket a2 m2 (snd (send_natpacket a1 m1 w)) =
    (Ok tt, did (DidSend a2 m2) (snd (send_natpacket a1 m1 w))) ∧
  (∀ e, natserver w = None → listen_raises w = Some e →
        fst (send_natpacket a1 m1 w) = Raise e ∧
        added (send_natpacket a1 m1) w = [DidListen]) ∧
  (is_Some (natserver w) →
   added (send_natpacket a1 m1) w = [DidSend a1 m1]).
Proof.
  assert (Hsome : is_Some (natserver (snd (send_natpacket a1 m1 w)))).
  { unfold send_natpacket, listen, bind, ret.
    destruct (natserver w) as [s|] eqn:Hs; simpl; [by rewrite Hs|].
    destruct (listen_raises w); simpl; by eexists. }
  split; [exact Hsome|]. split; [|split].
  - destruct Hsome as [s Hs]. unfold send_natpacket at 1. unfold bind, ret.
    by rewrite Hs.
  - intros e Hs Hl. unfold added, send_natpacket, listen, bind, ret.
    rewrite Hs. simpl. rewrite Hl. simpl. split; [done|].
    by rewrite drop_app_length.
  - intros [s Hs]. unfold added, send_natpacket, bind, ret. rewrite Hs. simpl.
    by rewrite drop_app_length.
Qed.

Lemma send_natpacket_installs_listener_witness :
  let w := fresh_world 0 [] (Some ListenError) example_config in
  natserver w = None ∧ listen_raises w = Some ListenError ∧
  fst (send_natpacket example_peer "Are you public? abc123" w) = Raise ListenError.
Proof.
  intros w. split; [reflexivity|]. split; [reflexivity|].
  exact (proj1 (proj1 (proj2 (proj2
    (send_natpacket_installs_listener example_peer example_peer
       "Are you public? abc123" "Are you public? abc123" w)))
    ListenError eq_refl eq_refl)).
Defined.

(** [test_public] raises only what the start of the listener raises, and has
    then sent nothing: neither the timeout nor the cancellation of its wait
    ever leaves it. *)
Theorem test_public_raises self w e :
  fst (test_public self w) = Raise e →
  natserver w = None ∧ listen_raises w = Some e ∧
  added (test_public self) w = [DidListen].
Proof.
  intros Hraise.
  destruct (test_public_cases self w)
    as [(e' & Hs & Hl & Hfst & Heff)|(_ & b & c & w' & Heq & _)].
  - rewrite Hfst in Hraise. injection Hraise as ->.
    repeat split; [done..|]. unfold added. by rewrite Heff, drop_app_length.
  - rewrite Heq in Hraise. discriminate.
Qed.

Lemma test_public_raises_witness :
  let w := fresh_world 0 [] (Some ListenError) example_config in
  fst (test_public example_test w) = Raise ListenError ∧
  added (test_public example_test) w = [DidListen].
Proof.
  intros w.
  assert (Hraise : fst (test_public example_test w) = Raise ListenError)
    by (vm_compute; reflexivity).
  split; [exact Hraise|].
  exact (proj2 (proj2 (test_public_raises example_test w ListenError Hraise))).
Defined.

(** [test_stun] without a listener fails at once with [AttributeError],
    having done nothing; with a listener it raises nothing but the
    cancellation of a settle delay: timeouts and cancellations of its waits
    stay inside. *)
Theorem test_stun_raises self w :
  (natserver w = None → test_stun self w = (Raise AttributeError, w)) ∧
  (∀ e, fst (test_stun self w) = Raise e →
        (e = AttributeError ∧ natserver w = None) ∨
        (e = CancelledError ∧ is_Some (natserver w))).
Proof.
  split.
  - intros Hs. unfold test_stun. simpl.
    unfold bind, test_stun_round, natserver_await_packet. unfold bind. by rewrite Hs.
  - intros e Hraise. destruct (natserver w) as [s|] eqn:Hs.
    + right. split; [|by eexists].
      destruct (test_stun_loop_run self (stun_message (identifier self)) 3 w)
        as (tr & _ & Hrun); [by eexists|].
      change (test_stun_loop self (stun_message (identifier self)) 3 w)
        with (test_stun self w) in Hrun.
      rewrite Hraise in Hrun. by eapply stun_run_raises.
    + left. split; [|done].
      assert (Heq : test_stun self w = (Raise AttributeError, w)).
      { unfold test_stun. simpl.
        unfold bind, test_stun_round, natserver_await_packet. unfold bind.
        by rewrite Hs. }
      rewrite Heq in Hraise. by injection Hraise as <-.
Qed.

Lemma test_stun_raises_witness :
  natserver (example_world []) = None ∧
  test_stun example_test (example_world []) = (Raise AttributeError, example_world []).
Proof.
  split; [reflexivity|].
  exact (proj1 (test_stun_raises example_test (example_world [])) eq_refl).
Defined.

(** [determine_connectivity] fails exactly when the start of the listener
    fails with something other than a timeout or a cancellation, and then
    with that very exception: such a failure is not turned into PROXY. *)
Theorem determine_connectivity_raises_iff self w e :
  fst (determine_connectivity self w) = Raise e ↔
  natserver w = None ∧ listen_raises w = Some e ∧ timeout_or_cancelled e = false.
Proof.
  destruct (determine_connectivity_run self w)
    as [(e' & Hs & Hl & _ & Hres)|(Hok & cancelled & tr & _ & Hshape)].
  - rewrite Hres. split.
    + destruct (timeout_or_cancelled e') eqn:He'; intros [= <-]. done.
    + intros (_ & Hl' & He). rewrite Hl in Hl'. injection Hl' as ->. by rewrite He.
  - split.
    + destruct Hshape as [(_ & _ & ->)|(r & _ & ->)]; discriminate.
    + intros (Hs & Hl & _). destruct Hok as [[s Hs']|Hl']; congruence.
Qed.

Lemma determine_connectivity_raises_iff_witness :
  let w := fresh_world 0 [] (Some ListenError) example_config in
  (natserver w = None ∧ listen_raises w = Some ListenError ∧
   timeout_or_cancelled ListenError = false) ∧
  fst (determine_connectivity example_test w) = Raise ListenError.
Proof.
  intros w.
  assert (H : natserver w = None ∧ listen_raises w = Some ListenError ∧
              timeout_or_cancelled ListenError = false) by done.
  split; [exact H|].
  exact (proj2 (determine_connectivity_raises_iff example_test w ListenError) H).
Defined.

Lemma stun_run_requests c message n tr r :
  stun_run c message (S n) tr r → (1 ≤ count_effects is_request tr)%nat.
Proof. unfold count_effects. inversion 1; simpl; lia. Qed.

(** What a classification carries and what it cost: PUBLIC comes with the
    dialed address as text and without any request to the peer; STUN comes
    with an address from the wire, after at least one request; PROXY comes
    without an address. *)
Theorem classification_address self w c :
  fst (determine_connectivity self w) = Ok c →
  match state c with
  | PUBLIC =>
      addr c = AddrText (format_address (remote_addr self)) ∧
      count_effects is_request (added (determine_connectivity self) w) = 0
  | STUN =>
      (∃ source, addr c = AddrWire source) ∧
      (1 ≤ count_effects is_request (added (determine_connectivity self) w))%nat
  | PROXY => addr c = AddrNone
  end.
Proof.
  intros Hc. unfold added.
  destruct (determine_connectivity_run self w)
    as [(e & _ & _ & _ & Hres)|(_ & cancelled & tr & Heff & Hshape)].
  - rewrite Hres in Hc. destruct (timeout_or_cancelled e); [|discriminate].
    by injection Hc as <-.
  - rewrite Heff, drop_app_length.
    destruct Hshape as [(-> & _ & Hres)|(r & Hrun & Hres)]; rewrite Hres in Hc;
      injection Hc as <-.
    + simpl. split; [done|]. rewrite app_nil_r. unfold count_effects, public_run.
      by destruct (listener_started w), cancelled.
    + destruct r as [[source|]|e]; simpl; try done.
      split; [by eexists|].
      pose proof (stun_run_requests _ _ _ _ _ Hrun) as Hreq.
      unfold count_effects in *. rewrite List.filter_app, length_app. lia.
Qed.

Lemma classification_address_witness :
  fst (determine_connectivity example_test cancelled_then_seen) =
    Ok (mkConnectivity (AddrWire example_source) STUN) ∧
  (1 ≤ count_effects is_request
         (added (determine_connectivity example_test) cancelled_then_seen))%nat.
Proof.
  assert (Hc : fst (determine_connectivity example_test cancelled_then_seen) =
               Ok (mkConnectivity (AddrWire example_source) STUN))
    by (vm_compute; reflexivity).
  split; [exact Hc|].
  exact (proj2 (classification_address example_test cancelled_then_seen _ Hc)).
Defined.

End Endings.

(** * What a failed PUBLIC test leaves, and cancellation in a settle delay *)

Section Leftovers.
Implicit Types (w : World) (self : ConnectivityTest).




(** A settle delay that a cancellation falls into is interrupted, whatever
    else arrives before the cancellation. *)
Lemma sleep_interrupted d pre t post w :
  Forall (λ te, (fst te < d)%Q ∧ snd te ≠ Cancel) pre →
  (t < d)%Q →
  fst (suspend d (λ _, @None unit) (pre ++ (t, Cancel) :: post) w) = Interrupted.
Proof.
  intros Hpre Ht. revert w.
  induction Hpre as [|[t' e'] pre [Ht' He'] Hpre IH]; intros w; simpl.
  - by destruct (Qlt_le_dec t d) as [_|Hle]; [|lra].
  - simpl in *. destruct (Qlt_le_dec t' d) as [_|Hle]; [|lra].
    destruct e' as [source message|source message|]; [apply IH..|done].
Qed.

(** When the run is cancelled during the settle delay of the first round
    of the STUN loop, [test_stun] raises the cancellation and the
    classification is PROXY without an address, also when the datagram the
    round asked for has already arrived in that delay. *)
Theorem cancelled_settle_delay_gives_proxy self w w1 pre t post :
  test_public self w = (Ok false, w1) →
  inbox w1 = pre ++ (t, Cancel) :: post →
  Forall (λ te, (fst te < now w1 + (1 # 10))%Q ∧ snd te ≠ Cancel) pre →
  (t < now w1 + (1 # 10))%Q →
  fst (test_stun self w1) = Raise CancelledError ∧
  fst (determine_connectivity self w) = Ok (mkConnectivity AddrNone PROXY).
Proof.
  intros Hpub Hin Hpre Ht.
  assert (Hs : is_Some (natserver w1)).
  { destruct (test_public_cases self w)
      as [(e & _ & _ & Hfst & _)|(_ & b & c & w' & Heq & _ & _ & Hs & _)].
    - rewrite Hpub in Hfst. discriminate.
    - rewrite Hpub in Heq. by injection Heq as _ <-. }
  destruct Hs as [s Hs].
  assert (Hstun : fst (test_stun self w1) = Raise CancelledError).
  { change (test_stun self w1)
      with (test_stun_loop self (stun_message (identifier self)) 3 w1).
    rewrite (test_stun_loop_step self (stun_message (identifier self)) 2 w1).
    rewrite (test_stun_round_eq self (stun_message (identifier self)) w1 s Hs), Hin.
    match goal with
    | |- context [suspend ?d ?p ?evs ?w0] =>
        pose proof (sleep_interrupted (now w1 + (1 # 10))%Q pre t post w0 Hpre Ht)
          as Hint;
        destruct (suspend d p evs w0) as [k w2]
    end.
    simpl in Hint. by subst k. }
  split; [exact Hstun|].
  rewrite determine_connectivity_phases, Hpub.
  destruct (test_stun self w1) as [r w2]. simpl in Hstun. by subst r.
Qed.

Lemma cancelled_settle_delay_gives_proxy_witness :
  let w := example_world [((102 # 100)%Q, Datagram example_source "Hello abc123");
                          ((105 # 100)%Q, Cancel)] in
  test_public example_test w = (Ok false, snd (test_public example_test w)) ∧
  fst (determine_connectivity example_test w) = Ok (mkConnectivity AddrNone PROXY).
Proof.
  intros w.
  assert (Hpub : test_public example_test w = (Ok false, snd (test_public example_test w)))
    by (vm_compute; reflexivity).
  assert (Hin : inbox (snd (test_public example_test w)) =
                [((102 # 100)%Q, Datagram example_source "Hello abc123")] ++
                ((105 # 100)%Q, Cancel) :: [])
    by (vm_compute; reflexivity).
  assert (Hnow : now (snd (test_public example_test w)) = 1%Q)
    by (vm_compute; reflexivity).
  split; [exact Hpub|].
  refine (proj2 (cancelled_settle_delay_gives_proxy example_test w _
                   [((102 # 100)%Q, Datagram example_source "Hello abc123")]
                   (105 # 100)%Q [] Hpub Hin _ _)).
  - rewrite Hnow. repeat constructor; try reflexivity; discriminate.
  - rewrite Hnow. reflexivity.
Defined.

(** Without an echo of its own text the PUBLIC test fails. *)
Lemma test_public_no_echo self w :
  listener_ok w → well_formed (connection w) →
  Forall (λ te, not_report (public_message (identifier self)) (snd te)) (inbox w) →
  fst (test_public self w) = Ok false.
Proof.
  intros Hok Hwf Hall. unfold test_public.
  destruct (three_sends (remote_addr self) (public_message (identifier self)) w)
    as [(e & Hs & Hl & _)|(_ & w1 & Heq & _ & _ & _ & _ & Hinbox & Hconn & _)].
  { destruct Hok as [[s Hs']|Hl']; congruence. }
  unfold bind at 1. rewrite Heq. unfold try_except, bind.
  unfold wait_for_natpacket_task, NatHelper.wait_for_natpacket_begin.
  simpl. rewrite Hinbox.
  set (message := public_message (identifier self)).
  set (fut := length (cells (connection w1))).
  assert (Hstep : ∀ e (h : NatHelper.t) (s : option NatPacketServer.t),
            not_report message e → awaiting message fut h →
            awaiting message fut (deliver_connection e h)).
  { intros e h s. apply deliver_connection_awaiting. }
  kept (λ (h : NatHelper.t) (s : option NatPacketServer.t), awaiting message fut h)
       (not_report message) k w2 Hkept Hstep Hall
       (register_awaiting message (connection w1) ltac:(rewrite Hconn; exact Hwf)).
  destruct Hkept as (Haw & _ & Hpoll).
  destruct k as [[r|u]| |]; simpl; try done.
  - destruct (Hpoll _ eq_refl) as (w0 & Hp & Hc0 & _). exfalso.
    unfold NatHelper.wait_for_natpacket_end in Hp. rewrite Hc0 in Hp.
    destruct Haw as (_ & Hc & _). by rewrite Hc in Hp.
Qed.

(** Reports of probes of other identifiers, and reports of any other text,
    never make the PUBLIC test of this identifier succeed. *)
Theorem foreign_reports_ignored self w :
  listener_ok w → well_formed (connection w) →
  Forall (λ te, ∀ source identifier',
                  snd te = ClientReport source (public_message identifier') →
                  identifier' ≠ identifier self) (inbox w) →
  fst (test_public self w) = Ok false.
Proof.
  intros Hok Hwf Hall. apply test_public_no_echo; [done..|].
  eapply Forall_impl; [exact Hall|].
  intros te Hte source Heq. by apply (Hte source (identifier self)).
Qed.

Lemma foreign_reports_ignored_witness :
  let w := example_world [((2 # 10)%Q, ClientReport example_peer "Are you public? xyz789")] in
  listener_ok w ∧ fst (test_public example_test w) = Ok false.
Proof.
  intros w.
  assert (Hok : listener_ok w) by (by right).
  split; [exact Hok|].
  refine (foreign_reports_ignored example_test w Hok Awaited_init_well_formed _).
  repeat constructor. simpl. intros source identifier' Heq Hid.
  rewrite Hid in Heq. discriminate Heq.
Defined.

End Leftovers.

(** * What a run keeps of the connection's table *)

Section KeepsGeneral.

Lemma keeps_ret {A} (P : World → Prop) (a : A) : keeps P (ret a).
Proof. by intros w. Qed.

Lemma keeps_bind {A B} (P : World → Prop) (m : M A) (k : A → M B) :
  keeps P m → (∀ a, keeps P (k a)) → keeps P (bind m k).
Proof.
  intros Hm Hk w HP. unfold bind. specialize (Hm w HP).
  destruct (m w) as [[a|e] w']; simpl in *; [by apply Hk|done].
Qed.

Lemma keeps_try_except {A} (P : World → Prop) (body handler : M A) classes :
  keeps P body → keeps P handler → keeps P (try_except body classes handler).
Proof.
  intros Hb Hh w HP. unfold try_except. specialize (Hb w HP).
  destruct (body w) as [[a|e] w']; simpl in *; [done|].
  destruct (classes e); [by apply Hh|done].
Qed.

Lemma keeps_for_range (P : World → Prop) n (body : M unit) :
  keeps P body → keeps P (for_range n body).
Proof.
  intros Hb. induction n as [|n IH]; simpl; [apply keeps_ret|].
  by apply keeps_bind.
Qed.

End KeepsGeneral.

Section KeepsConnection.
Variable I : NatHelper.t → Prop.
Variable self : ConnectivityTest.
Hypothesis I_deliver : ∀ e h, I h → I (deliver_connection e h).
Hypothesis I_cancel : ∀ fut h, I h → I (cancel_future fut h).
Hypothesis I_register :
  ∀ h, I h → I (snd (register (public_message (identifier self)) h)).

Let P (w : World) : Prop := I (connection w).

Lemma keeps_suspend {R} d (poll : World → option R) evs w :
  P w → P (snd (suspend d poll evs w)).
Proof.
  intros HP.
  apply (suspend_keeps (λ h _, I h) (λ _, True) d poll evs w); [|by apply Forall_true|done].
  intros e h s _. apply I_deliver.
Qed.

Lemma keeps_sleep delay : keeps P (sleep delay).
Proof.
  intros w HP. unfold sleep.
  match goal with
  | |- context [suspend ?d ?p ?evs ?w0] =>
      pose proof (keeps_suspend d p evs w0 HP) as Hs;
      destruct (suspend d p evs w0) as [[[]| |] w']
  end; exact Hs.
Qed.

Lemma keeps_wait_for_packet fut timeout : keeps P (wait_for_packet fut timeout).
Proof.
  intros w HP. unfold wait_for_packet.
  match goal with
  | |- context [suspend ?d ?p ?evs ?w0] =>
      pose proof (keeps_suspend d p evs w0 HP) as Hs;
      destruct (suspend d p evs w0) as [[r| |] w']
  end; exact Hs.
Qed.

Lemma keeps_wait_for_natpacket_task sender timeout :
  keeps P (wait_for_natpacket_task (public_message (identifier self)) sender timeout).
Proof.
  intros w HP. unfold wait_for_natpacket_task, NatHelper.wait_for_natpacket_begin.
  simpl.
  match goal with
  | |- context [suspend ?d ?p ?evs ?w0] =>
      pose proof (keeps_suspend d p evs w0 (I_register _ HP)) as Hs;
      destruct (suspend d p evs w0) as [[[r|u]| |] w']
  end; simpl in *; try exact Hs; by apply I_cancel.
Qed.

Lemma keeps_send_natpacket address msg : keeps P (send_natpacket address msg).
Proof.
  intros w HP. unfold send_natpacket, listen, bind, ret.
  destruct (natserver w); simpl; [done|]. by destruct (listen_raises w).
Qed.

Lemma keeps_test_public : keeps P (test_public self).
Proof.
  unfold test_public. apply keeps_bind.
  - apply keeps_for_range, keeps_send_natpacket.
  - intros _. apply keeps_try_except; [|apply keeps_ret].
    apply keeps_bind; [apply keeps_wait_for_natpacket_task|intros r; apply keeps_ret].
Qed.

Lemma keeps_test_stun_round message : keeps P (test_stun_round self message).
Proof.
  unfold test_stun_round. apply keeps_bind.
  - intros w HP. unfold natserver_await_packet. by destruct (natserver w).
  - intros fut. apply keeps_bind; [by intros w HP|]. intros _.
    apply keeps_bind; [apply keeps_sleep|]. intros _.
    apply keeps_try_except; [|apply keeps_ret].
    apply keeps_bind; [apply keeps_wait_for_packet|].
    intros [received address]. destruct (String.eqb received message); apply keeps_ret.
Qed.

Lemma keeps_test_stun : keeps P (test_stun self).
Proof.
  unfold test_stun. generalize 3. intros n.
  induction n as [|n IH]; simpl; [apply keeps_ret|].
  apply keeps_bind; [apply keeps_test_stun_round|].
  intros [address|]; [apply keeps_ret|exact IH].
Qed.

Lemma keeps_determine_connectivity : keeps P (determine_connectivity self).
Proof.
  unfold determine_connectivity. apply keeps_bind.
  - apply keeps_try_except; [|apply keeps_ret].
    apply keeps_bind; [apply keeps_test_public|].
    intros [|]; [apply keeps_ret|].
    apply keeps_bind; [apply keeps_test_stun|].
    intros address. destruct (truthy address); apply keeps_ret.
  - intros [c|]; apply keeps_ret.
Qed.

End KeepsConnection.

Section Kept.
Implicit Types (w : World) (self : ConnectivityTest).

(** A run adds to [nat_packets] of the connection no key but its own PUBLIC
    text: it registers nothing else there, whatever arrives meanwhile. *)
Theorem determine_connectivity_footprint self w :
  dom (nat_packets (connection (snd (determine_connectivity self w)))) ⊆
  dom (nat_packets (connection w)) ∪ {[public_message (identifier self)]}.
Proof.
  apply (keeps_determine_connectivity
           (λ h, dom (nat_packets h) ⊆
                 dom (nat_packets (connection w)) ∪ {[public_message (identifier self)]})
           self); [| | |apply union_subseteq_l].
  - intros e h Hh. destruct e as [source message|source message|]; simpl; try done.
    unfold NatHelper.process_nat_packet.
    destruct (resolve_cases message (source, message) h)
      as [[-> _]|(fut & _ & _ & ->)]; [done|].
    simpl. rewrite dom_delete_L. intros x [Hx _]%elem_of_difference. by apply Hh.
  - intros fut h Hh. by rewrite cancel_future_table.
  - intros h Hh. simpl. rewrite dom_insert_L.
    intros x [Hx|Hx]%elem_of_union; [by apply elem_of_union_r|by apply Hh].
Qed.

Lemma cancel_future_cell_ne {P} fut fut' (a : Awaited P) :
  fut ≠ fut' → cells (cancel_future fut a) !! fut' = cells a !! fut'.
Proof.
  intros Hne. unfold cancel_future.
  destruct (cells a !! fut) as [[| |]|]; try done.
  simpl. by apply list_lookup_insert_ne.
Qed.

Lemma cancel_future_consistent {P} fut (a : Awaited P) :
  consistent a → consistent (cancel_future fut a).
Proof.
  intros (Hwf & Hone & Hno). split; [by apply cancel_future_well_formed|].
  split.
  - intros k1 k2 f. rewrite cancel_future_table. apply Hone.
  - intros k f v. rewrite cancel_future_table. intros Hk.
    destruct (decide (fut = f)) as [->|Hne].
    + unfold cancel_future. destruct (cells a !! f) as [[| |]|] eqn:Hc; simpl.
      * rewrite list_lookup_insert_eq; [done|by eapply lookup_lt_Some].
      * by destruct (Hno k f result Hk).
      * by rewrite Hc.
      * by rewrite Hc.
    + rewrite cancel_future_cell_ne by done. by eapply Hno.
Qed.

Lemma resolve_consistent {P} m v (a : Awaited P) :
  consistent a → consistent (resolve m v a).
Proof.
  intros (Hwf & Hone & Hno).
  split; [by apply resolve_well_formed|]. split; [by apply resolve_stored_once|].
  intros k f v'.
  destruct (resolve_cases m v a) as [[-> _]|(fut & Hm & _ & ->)]; [apply Hno|].
  simpl. intros Hk. apply lookup_delete_Some in Hk as [Hne Hk].
  rewrite list_lookup_insert_ne; [by eapply Hno|].
  intros ->. apply Hne. eapply Hone; eauto.
Qed.

Lemma register_consistent {P} m (a : Awaited P) :
  consistent a → consistent (snd (register m a)).
Proof.
  intros (Hwf & Hone & Hno).
  split; [by apply register_well_formed|]. split; [by apply register_stored_once|].
  intros k f v. destruct (decide (m = k)) as [->|Hne].
  - rewrite register_lookup. intros [= <-]. by rewrite register_cell_new.
  - rewrite register_lookup_ne by done. intros Hk.
    rewrite register_cell_old; [by eapply Hno|by eapply Hwf].
Qed.

(** A run keeps the table of the connection consistent: whatever packets,
    timeouts and cancellations occur, no key of [nat_packets] ever points at a
    future whose result is set (the futures it holds are pending or
    cancelled), and no future is stored under two keys. *)
Theorem determine_connectivity_keeps_consistent self w :
  consistent (connection w) →
  consistent (connection (snd (determine_connectivity self w))).
Proof.
  apply (keeps_determine_connectivity consistent self).
  - intros e h Hh. destruct e as [source message|source message|]; simpl; try done.
    by apply resolve_consistent.
  - intros fut h. apply cancel_future_consistent.
  - intros h. apply register_consistent.
Qed.

Lemma determine_connectivity_keeps_consistent_witness :
  consistent (connection cancelled_then_seen) ∧
  consistent (connection (snd (determine_connectivity example_test cancelled_then_seen))).
Proof.
  assert (Hc : consistent (connection cancelled_then_seen)).
  { split; [apply Awaited_init_well_formed|].
    split; intros k; intros; simpl in *; by rewrite lookup_empty in *. }
  split; [exact Hc|].
  exact (determine_connectivity_keeps_consistent example_test cancelled_then_seen Hc).
Defined.

End Kept.

(** * A PUBLIC answer comes before the deadline *)

Section Prompt.
Implicit Types (w : World) (self : ConnectivityTest).




End Prompt.
